(** * DDL formatter: a shallow embedding of [DDLFormatter.format]

    The development follows [ddl_formatter_combined_4.py].  Python strings
    are lists of 8-bit code points; the character tables below are the ones
    CPython uses for that range ([str.isspace], [str.isalnum], [str.lower],
    [str.upper]).  The three regular expressions of the formatter are written
    as terms of a small backtracking matcher that follows the priority rules
    of Python's [re] module (ordered alternation, greedy and lazy repetition,
    capture groups, [\b] and [$]). *)

From Stdlib Require Import Ascii String NArith ZArith Bool Arith Lia.
From Stdlib Require Import List Permutation.
Import ListNotations.

Local Open Scope list_scope.

(** ** Characters and strings *)

Definition str := list ascii.

Definition lit (s : string) : str := list_ascii_of_string s.

Definition code (c : ascii) : N := N_of_ascii c.

Definition in_range (lo hi : N) (c : ascii) : bool :=
  (N.leb lo (code c) && N.leb (code c) hi)%bool.

Definition is_code (n : N) (c : ascii) : bool := N.eqb (code c) n.

(** [str.isspace] and the regex class [\s] agree on every code point. *)
Definition isspace (c : ascii) : bool :=
  in_range 9 13 c || in_range 28 32 c || is_code 133 c || is_code 160 c.

(** [str.isalnum] on the 8-bit range. *)
Definition isalnum (c : ascii) : bool :=
  in_range 48 57 c || in_range 65 90 c || in_range 97 122 c
  || is_code 170 c || is_code 178 c || is_code 179 c || is_code 181 c
  || is_code 185 c || is_code 186 c || in_range 188 190 c
  || in_range 192 214 c || in_range 216 246 c || in_range 248 255 c.

(** The regex class [\w]: alphanumeric or underscore. *)
Definition is_word (c : ascii) : bool := isalnum c || is_code 95 c.

(** [str.lower] on one code point. *)
Definition lower_char (c : ascii) : ascii :=
  if in_range 65 90 c || (in_range 192 222 c && negb (is_code 215 c))
  then ascii_of_N (code c + 32) else c.

(** [str.upper] on one code point.  The three lower-case letters of the
    8-bit range whose upper-case form lies outside of it (181, 223, 255) are
    left alone; [format] only upper-cases keyword matches, which are made of
    ASCII letters (lemma [keyword_match_letters]). *)
Definition upper_char (c : ascii) : ascii :=
  if in_range 97 122 c || (in_range 224 254 c && negb (is_code 247 c))
  then ascii_of_N (code c - 32) else c.

Definition lower (s : str) : str := map lower_char s.
Definition upper (s : str) : str := map upper_char s.

Definition ascii_eqb (a b : ascii) : bool := Ascii.eqb a b.

Fixpoint str_eqb (a b : str) : bool :=
  match a, b with
  | [], [] => true
  | x :: a', y :: b' => ascii_eqb x y && str_eqb a' b'
  | _, _ => false
  end.

(** [s.startswith(p)] *)
Fixpoint startswith (s p : str) : bool :=
  match p, s with
  | [], _ => true
  | y :: p', x :: s' => ascii_eqb x y && startswith s' p'
  | _ :: _, [] => false
  end.

(** [s.endswith(p)] *)
Definition endswith (s p : str) : bool := startswith (rev s) (rev p).

(** [p in s] *)
Fixpoint contains (p s : str) : bool :=
  startswith s p ||
  match s with
  | [] => false
  | _ :: s' => contains p s'
  end.

Fixpoint dropwhile (f : ascii -> bool) (s : str) : str :=
  match s with
  | [] => []
  | x :: s' => if f x then dropwhile f s' else s
  end.

(** [s.lstrip()], [s.rstrip()], [s.strip()] *)
Definition lstrip (s : str) : str := dropwhile isspace s.
Definition rstrip (s : str) : str := rev (dropwhile isspace (rev s)).
Definition strip (s : str) : str := lstrip (rstrip s).

(** [s.split(sep)] for a one-character separator: the pieces between the
    separators, at least one piece. *)
Fixpoint split_on (sep : ascii) (s : str) : list str :=
  match s with
  | [] => [[]]
  | x :: s' =>
      if ascii_eqb x sep then [] :: split_on sep s'
      else match split_on sep s' with
           | [] => [[x]]
           | p :: ps => (x :: p) :: ps
           end
  end.

(** [sep.join(parts)] *)
Fixpoint join (sep : str) (parts : list str) : str :=
  match parts with
  | [] => []
  | [p] => p
  | p :: ps => p ++ sep ++ join sep ps
  end.

(** [s.replace(old, new)] for a non-empty [old]: occurrences are replaced
    from the left and do not overlap.  [skip] counts the characters of the
    occurrence being replaced that are still to be dropped. *)
Fixpoint replace_from (old new : str) (skip : nat) (s : str) : str :=
  match s with
  | [] => []
  | x :: s' =>
      match skip with
      | S n => replace_from old new n s'
      | O => if startswith s old
             then new ++ replace_from old new (length old - 1) s'
             else x :: replace_from old new 0 s'
      end
  end.

Definition replace (old new : str) (s : str) : str := replace_from old new 0 s.

(** [s.rfind(c)] for a one-character needle: the highest index, or -1. *)
Fixpoint rfind_from (c : ascii) (i : Z) (found : Z) (s : str) : Z :=
  match s with
  | [] => found
  | x :: s' => rfind_from c (i + 1) (if ascii_eqb x c then i else found) s'
  end.

Definition rfind (s : str) (c : ascii) : Z := rfind_from c 0 (-1) s.

(** [s[:n]]: a negative [n] counts from the end. *)
Definition slice_to (s : str) (n : Z) : str :=
  if (n <? 0)%Z then firstn (Z.to_nat (Z.of_nat (length s) + n)) s
  else firstn (Z.to_nat n) s.

Definition nl : ascii := ascii_of_N 10.

(** ** Outcomes of Python code: a value or a raised exception *)

Inductive exn := AttributeError | TypeError | ValueError.

Inductive result (A : Type) :=
| Ok (a : A)
| Raise (e : exn).

Arguments Ok {A} a.
Arguments Raise {A} e.

Definition bind {A B} (r : result A) (f : A -> result B) : result B :=
  match r with
  | Ok a => f a
  | Raise e => Raise e
  end.

Notation "x <- r ;; k" := (bind r (fun x => k))
  (at level 61, r at next level, right associativity).

(** A method call on a value that may be [None]. *)
Definition attr {A} (o : option A) : result A :=
  match o with
  | Some a => Ok a
  | None => Raise AttributeError
  end.

(** ** The regular-expression matcher *)

Module Re.

Inductive greed := Greedy | Lazy.

Inductive re :=
| Eps
| Chr (p : ascii -> bool)
| Seq (a b : re)
| Alt (a b : re)
| Star (g : greed) (a : re)
| Group (i : nat) (a : re)
| WordB
| Eol.

(** A position in the subject: the character before it and what follows. *)
Record pos := mkpos { prev : option ascii; rest : str }.

Definition caps := list (nat * str).

Definition word_before (p : pos) : bool :=
  match prev p with Some c => is_word c | None => false end.

Definition word_after (p : pos) : bool :=
  match rest p with c :: _ => is_word c | [] => false end.

(** [\b] *)
Definition boundary (p : pos) : bool := xorb (word_before p) (word_after p).

(** [$]: the end of the subject, or just before a final newline. *)
Definition at_eol (p : pos) : bool :=
  match rest p with
  | [] => true
  | [c] => ascii_eqb c nl
  | _ => false
  end.

(** The text between two positions of one subject. *)
Definition between (p q : pos) : str :=
  firstn (length (rest p) - length (rest q)) (rest p).

Definition orelse {A} (a b : option A) : option A :=
  match a with Some _ => a | None => b end.

Section Matcher.
Context {A : Type}.

Definition cont := pos -> caps -> option A.
Definition matcher := pos -> caps -> cont -> option A.

(** Repetition of [m]: an iteration that consumes nothing ends the loop
    on that branch, as in [re]. *)
Fixpoint star (g : greed) (m : matcher) (fuel : nat)
         (p : pos) (c : caps) (k : cont) : option A :=
  match fuel with
  | O => k p c
  | S f =>
      let more :=
        m p c (fun p' c' =>
                 if length (rest p') <? length (rest p)
                 then star g m f p' c' k else None) in
      match g with
      | Greedy => orelse more (k p c)
      | Lazy => orelse (k p c) more
      end
  end.

Fixpoint run (r : re) (p : pos) (c : caps) (k : cont) : option A :=
  match r with
  | Eps => k p c
  | Chr f =>
      match rest p with
      | x :: t => if f x then k (mkpos (Some x) t) c else None
      | [] => None
      end
  | Seq a b => run a p c (fun p' c' => run b p' c' k)
  | Alt a b => orelse (run a p c k) (run b p c k)
  | Star g a => star g (run a) (length (rest p)) p c k
  | Group i a => run a p c (fun p' c' => k p' ((i, between p p') :: c'))
  | WordB => if boundary p then k p c else None
  | Eol => if at_eol p then k p c else None
  end.
End Matcher.

(** A match: where it starts, the matched text, and the captures. *)
Record mtch := mkmatch { m_start : nat; m_text : str; m_caps : caps }.

Definition exec (r : re) (p : pos) : option (pos * caps) :=
  run r p [] (fun p' c' => Some (p', c')).

Definition match_at (r : re) (start : nat) (p : pos) : option mtch :=
  match exec r p with
  | Some (p', c) => Some (mkmatch start (between p p') c)
  | None => None
  end.

(** [pattern.search(s)]: the match at the leftmost position that has one. *)
Fixpoint search_from (r : re) (start : nat) (pv : option ascii) (s : str)
  : option mtch :=
  match match_at r start (mkpos pv s) with
  | Some m => Some m
  | None =>
      match s with
      | [] => None
      | x :: t => search_from r (S start) (Some x) t
      end
  end.

Definition search (r : re) (s : str) : option mtch := search_from r 0 None s.

Fixpoint lookup (i : nat) (c : caps) : option str :=
  match c with
  | [] => None
  | (j, t) :: c' => if Nat.eqb i j then Some t else lookup i c'
  end.

(** [match.group(i)] for [i >= 1]: [None] when the group took no part. *)
Definition group (m : mtch) (i : nat) : option str := lookup i (m_caps m).

(** [pattern.sub(repl, s)] with a function [repl].  [skip] counts the
    characters of the current match that are still to be passed over. *)
Fixpoint sub_from (r : re) (repl : mtch -> str) (start : nat)
         (pv : option ascii) (skip : nat) (s : str) : str :=
  match s with
  | [] =>
      match skip with
      | O => match match_at r start (mkpos pv []) with
             | Some m => repl m
             | None => []
             end
      | S _ => []
      end
  | x :: t =>
      match skip with
      | S n => sub_from r repl (S start) (Some x) n t
      | O =>
          match match_at r start (mkpos pv s) with
          | Some m =>
              repl m ++
              match length (m_text m) with
              | O => x :: sub_from r repl (S start) (Some x) 0 t
              | S n => sub_from r repl (S start) (Some x) n t
              end
          | None => x :: sub_from r repl (S start) (Some x) 0 t
          end
      end
  end.

Definition sub (r : re) (repl : mtch -> str) (s : str) : str :=
  sub_from r repl 0 None 0 s.

(** Pattern syntax. *)
Definition any : re := Chr (fun _ => true).
Definition dot : re := Chr (fun c => negb (ascii_eqb c nl)).
Definition space : re := Chr isspace.
Definition chr (c : ascii) : re := Chr (ascii_eqb c).
(** A literal character under [re.IGNORECASE]. *)
Definition chr_i (c : ascii) : re :=
  Chr (fun x => ascii_eqb (lower_char x) (lower_char c)).
Definition plus (g : greed) (a : re) : re := Seq a (Star g a).
Definition opt (a : re) : re := Alt a Eps.

Fixpoint word_i (w : str) : re :=
  match w with
  | [] => Eps
  | [c] => chr_i c
  | c :: w' => Seq (chr_i c) (word_i w')
  end.

Fixpoint alts (rs : list re) : re :=
  match rs with
  | [] => Chr (fun _ => false)
  | [r] => r
  | r :: rs' => Alt r (alts rs')
  end.

Fixpoint seqs (rs : list re) : re :=
  match rs with
  | [] => Eps
  | [r] => r
  | r :: rs' => Seq r (seqs rs')
  end.

End Re.

(** ** The formatter ([class DDLFormatter]) *)

Import Re.

(** [self.sql_keywords], in the order of the source text.  Python iterates
    the set in an order of its own; lemma [keyword_order_irrelevant] shows
    that the order of the alternatives has no effect on the result. *)
Definition sql_keywords : list str :=
  map lit
    [ "add"; "alter"; "and"; "as"; "asc"; "between"; "by"; "case";
      "char"; "character"; "check"; "column"; "constraint"; "create";
      "date"; "decimal"; "default"; "delete"; "desc"; "distinct";
      "double"; "drop"; "else"; "end"; "exists"; "false"; "float";
      "foreign"; "from"; "group"; "having"; "if"; "in"; "inner";
      "insert"; "int"; "integer"; "into"; "is"; "join"; "key"; "left";
      "like"; "limit"; "not"; "null"; "numeric"; "on"; "or"; "order";
      "outer"; "precision"; "primary"; "references"; "replace"; "right";
      "select"; "set"; "table"; "then"; "timestamp"; "to"; "true";
      "union"; "unique"; "update"; "using"; "values"; "varchar";
      "view"; "when"; "where"; "with" ]%string.

(** The pattern "\b(" + "|".join(keywords) + ")\b" with [re.IGNORECASE]. *)
Definition keyword_regex_of (keywords : list str) : re :=
  seqs [WordB; Group 1 (alts (map word_i keywords)); WordB].

Definition keyword_regex : re := keyword_regex_of sql_keywords.

(** The class "[^\s(]". *)
Definition ident_char (c : ascii) : bool :=
  negb (isspace c || ascii_eqb c "("%char).

(** [self.create_statement_regex], compiled with [re.IGNORECASE].  Group 1
    is "(CREATE(?:.|\s)+?(?:TABLE|VIEW)(?:\s+IF\s+NOT\s+EXISTS)?\s+)", group 2
    is "([^\s(]+)" and group 3 encloses a greedy ".*" . *)
Definition create_statement_regex : re :=
  seqs
    [ Group 1
        (seqs
           [ word_i (lit "CREATE");
             plus Lazy (Alt dot space);
             Alt (word_i (lit "TABLE")) (word_i (lit "VIEW"));
             opt (seqs [ plus Greedy space; word_i (lit "IF");
                         plus Greedy space; word_i (lit "NOT");
                         plus Greedy space; word_i (lit "EXISTS") ]);
             plus Greedy space ]);
      Group 2 (plus Greedy (Chr ident_char));
      Group 3 (Star Greedy dot) ].

(** The pattern ",\s*$". *)
Definition trailing_comma_regex : re :=
  seqs [chr ","%char; Star Greedy space; Eol].

Definition _uppercase_keywords_with (keywords : list str) (line : str) : str :=
  sub (keyword_regex_of keywords) (fun m => upper (m_text m)) line.

Definition _uppercase_keywords (line : str) : str :=
  _uppercase_keywords_with sql_keywords line.

Definition placeholder_upper : str := lit "{{EDW_DB_NAME}}".
Definition placeholder_lower : str := lit "{{edw_db_name}}".

(** The prefix of [_process_create_statement]: the captured one when it
    holds [ or replace ] in some case, the canonical one otherwise, for a
    view when [view] occurs in the captured prefix. *)
Definition canonical_prefix (prefix : str) : str :=
  let is_view := contains (lit "view") (lower prefix) in
  let statement_type := if is_view then lit "VIEW" else lit "TABLE" in
  if negb (contains (lit " or replace ") (lower prefix))
  then lit "CREATE OR REPLACE " ++ statement_type ++ lit " "
  else prefix.

(** The identifier with the placeholder; [None] stands for the branch that
    returns the line as it is. *)
Definition new_identifier (identifier : str) : option str :=
  let parts := split_on "."%char identifier in
  if (length parts =? 1) || (length parts =? 2)
  then Some (placeholder_upper ++ lit "." ++ identifier)
  else if length parts =? 3
  then Some (placeholder_upper ++ lit "." ++ join (lit ".") (tl parts))
  else None.

(** [_process_create_statement]: the groups of a match may be [None] as
    far as Python knows, and a method call or a concatenation on [None]
    raises. *)
Definition _process_create_statement (line : str) : result str :=
  match search create_statement_regex line with
  | None => Ok line
  | Some m =>
      prefix <- attr (group m 1) ;;
      let prefix := canonical_prefix prefix in
      identifier <- attr (group m 2) ;;
      match new_identifier identifier with
      | None => Ok line
      | Some new_id =>
          match group m 3 with
          | Some suffix => Ok (prefix ++ new_id ++ suffix)
          | None => Raise TypeError
          end
      end
  end.

Record state := mkstate { inside_columns : bool; first_column : bool }.

Definition initial : state := mkstate false true.

(** [self._uppercase_keywords(line).replace('{{EDW_DB_NAME}}',
    '{{edw_db_name}}')] *)
Definition normalized (line : str) : str :=
  replace placeholder_upper placeholder_lower (_uppercase_keywords line).

(** The first half of the loop body: keyword case, the placeholder, the
    CREATE header.  Gives the line and [stripped_line]; the latter is taken
    from the line as it came in and again after a header was processed. *)
Definition prepare (line : str) : result (str * str) :=
  let stripped_line := strip line in
  let line := normalized line in
  match search create_statement_regex line with
  | Some _ =>
      line <- _process_create_statement line ;;
      Ok (line, strip line)
  | None => Ok (line, stripped_line)
  end.

(** The truth value of a string. *)
Definition nonempty (s : str) : bool :=
  match s with [] => false | _ :: _ => true end.

(** [line[:len(line) - len(stripped)]] *)
Definition indent_of (line stripped : str) : str :=
  firstn (length line - length stripped) line.

(** The second half of the loop body: the lines appended to
    [transformed_lines] and the new values of the two flags. *)
Definition restructure (st : state) (line stripped_line : str)
  : state * list str :=
  if negb (inside_columns st) && endswith (rstrip stripped_line) (lit "(")
  then
    let paren_pos := rfind line "("%char in
    let create_line_part := rstrip (slice_to line paren_pos) in
    let indent := indent_of line (lstrip line) in
    (mkstate true true,
     (if nonempty create_line_part then [create_line_part] else [])
       ++ [indent ++ lit "("])
  else if inside_columns st && startswith stripped_line (lit ")")
  then (mkstate false (first_column st), [line])
  else if inside_columns st && nonempty stripped_line
  then
    let line := sub trailing_comma_regex (fun _ => []) line in
    if first_column st
    then (mkstate (inside_columns st) false, [line])
    else
      let stripped := lstrip line in
      let indent := indent_of line stripped in
      (st, [indent ++ lit "," ++ stripped])
  else (st, [line]).

(** One turn of the loop of [format]. *)
Definition step (st : state) (line : str) : result (state * list str) :=
  ls <- prepare line ;;
  Ok (restructure st (fst ls) (snd ls)).

(** The loop of [format]: the final flags and [transformed_lines]. *)
Fixpoint for_lines (st : state) (lines : list str)
  : result (state * list str) :=
  match lines with
  | [] => Ok (st, [])
  | line :: lines' =>
      r <- step st line ;;
      r' <- for_lines (fst r) lines' ;;
      Ok (fst r', snd r ++ snd r')
  end.

(** [DDLFormatter.format] *)
Definition format (ddl : str) : result str :=
  let lines := split_on nl ddl in
  r <- for_lines initial lines ;;
  Ok (join [nl] (snd r)).

(** A text given by its lines. *)
Definition text (lines : list string) : str := join [nl] (map lit lines).

(** ** Definitions used by the statements and the proofs *)

Definition column_block : str :=
  text ["NAME ("; "  a INT,"; "  b INT,"; "  c INT"; ")"]%string.

(** The groups that every match of [r] goes through. *)
Fixpoint binds (r : re) : list nat :=
  match r with
  | Group i a => i :: binds a
  | Seq a b => binds a ++ binds b
  | _ => []
  end.

Definition bound (i : nat) (c : caps) : Prop := lookup i c <> None.

(** What a matcher promises: when it succeeds, its continuation was
    called on captures that extend the given ones with [gs]. *)
Definition extends {A : Type} (gs : list nat) (m : @matcher A) : Prop :=
  forall p c k v,
    m p c k = Some v ->
    exists p' c',
      k p' c' = Some v
      /\ (forall i, In i gs \/ bound i c -> bound i c').

Fixpoint takewhile (f : ascii -> bool) (s : str) : str :=
  match s with
  | [] => []
  | x :: s' => if f x then x :: takewhile f s' else []
  end.

(** The leading indentation of a line. *)
Definition leading_ws (s : str) : str := takewhile isspace s.

(** A line without its trailing comma and the white space after it; a line
    that does not end that way is left as it is. *)
Definition drop_trailing_comma (line : str) : str :=
  let core := rstrip line in
  if endswith core (lit ",") then removelast core else line.

Fixpoint cut_comma (s : str) : str :=
  match s with
  | [] => []
  | x :: t =>
      if ascii_eqb x ","%char && forallb isspace t then [] else x :: cut_comma t
  end.

Fixpoint last_prev (pv : option ascii) (t : str) : option ascii :=
  match t with
  | [] => pv
  | x :: t' => last_prev (Some x) t'
  end.

Definition accept : @cont (pos * caps) := fun p c => Some (p, c).

(** The handling of a column line: the line without its trailing comma for
    the first column, and with a comma put between its indentation and its
    text for the later ones. *)
Definition column_line (st : state) (line : str) : state * list str :=
  let body := drop_trailing_comma line in
  if first_column st
  then (mkstate true false, [body])
  else (st, [leading_ws body ++ lit "," ++ lstrip body]).

(** The line of the loop body when it reaches the tests on the
    parentheses. *)
Definition processed (line0 line : str) : Prop :=
  exists stripped_line, prepare line0 = Ok (line, stripped_line).

Definition not_closing (line0 : str) : Prop :=
  exists line,
    processed line0 line /\ startswith (strip line) (lit ")") = false.

Definition closing (line0 : str) : Prop :=
  exists line,
    processed line0 line /\ startswith (strip line) (lit ")") = true.

Definition is_letter (c : ascii) : bool := in_range 65 90 c || in_range 97 122 c.

(** Two characters that are equal or differ as letters do; two lines that
    differ by such characters only. *)
Definition same_char (x y : ascii) : Prop :=
  x = y \/ (is_letter x = true /\ is_letter y = true).

Definition same_shape (a b : str) : Prop := Forall2 same_char a b.

Definition occurs_at (p s : str) (i : nat) : bool := startswith (skipn i s) p.

Definition no_brace (u : str) : bool :=
  forallb (fun c => negb (ascii_eqb c "{"%char)) u.

(** Equality of two characters under [re.IGNORECASE]. *)
Definition ci_eqb (x c : ascii) : bool :=
  ascii_eqb (lower_char x) (lower_char c).

Fixpoint ci_prefix (w s : str) : bool :=
  match w, s with
  | [], _ => true
  | c :: w', x :: s' => ci_eqb x c && ci_prefix w' s'
  | _ :: _, [] => false
  end.

Fixpoint ci_equal (w s : str) : bool :=
  match w, s with
  | [], [] => true
  | c :: w', x :: s' => ci_eqb x c && ci_equal w' s'
  | _, _ => false
  end.

(** The word [w] is one of the keywords, whatever its case. *)
Definition is_keyword (keywords : list str) (w : str) : bool :=
  existsb (fun k => ci_equal k w) keywords.

Definition flush (keywords : list str) (w : str) : str :=
  if is_keyword keywords w then upper w else w.

(** The normalizer as the specification words it: the line is cut into its
    maximal runs of word characters and the characters between them; a run
    that is a keyword is put in upper case, everything else stays.  [acc]
    is the run being read. *)
Fixpoint words_spec (keywords : list str) (acc : str) (s : str) : str :=
  match s with
  | [] => flush keywords acc
  | x :: t =>
      if is_word x then words_spec keywords (acc ++ [x]) t
      else flush keywords acc ++ x :: words_spec keywords [] t
  end.

Definition normalize_spec (keywords : list str) (line : str) : str :=
  words_spec keywords [] line.

(** A keyword as the pattern needs it: not empty, ASCII letters only. *)
Definition good_keyword (k : str) : bool := nonempty k && forallb is_letter k.

Fixpoint advance (p : pos) (n : nat) : pos :=
  match n with
  | O => p
  | S n' =>
      match rest p with
      | x :: t => advance (mkpos (Some x) t) n'
      | [] => p
      end
  end.

Definition try_words {A : Type} (ws : list str) (p : pos) (c : caps)
           (k : @cont A) : option A :=
  fold_right (fun w acc => orelse (run (word_i w) p c k) acc) None ws.

(** The test a keyword has to pass at a position: the text there starts
    with it, in any case, and a word boundary follows. *)
Definition kw_test (p : pos) (k : str) : bool :=
  ci_prefix k (rest p) && boundary (advance p (length k)).

(** The end of a run of word characters. *)
Definition run_end (r : str) : bool :=
  match r with
  | [] => true
  | z :: _ => negb (is_word z)
  end.

Definition all_good (keywords : list str) : bool := forallb good_keyword keywords.

(** The text before a position ends inside a word. *)
Definition ends_word (pre : str) : bool :=
  match rev pre with
  | x :: _ => is_word x
  | [] => false
  end.

(** A formatted text, piece by piece: a line outside of any column list,
    or a column list with the parenthesis alone on its line (after some
    indentation), its lines, and the line that closes it. *)
Inductive item :=
| Plain (l : str)
| Block (indent : str) (body : list str) (close : str).

Definition lines_of_item (it : item) : list str :=
  match it with
  | Plain l => [l]
  | Block indent body close => (indent ++ lit "(") :: body ++ [close]
  end.

Definition lines_of (items : list item) : list str :=
  flat_map lines_of_item items.

Definition render (items : list item) : str := join [nl] (lines_of items).

(** The first two stages leave the line as it is. *)
Definition stable (l : str) : bool :=
  match prepare l with
  | Ok (l', s) => str_eqb l' l && str_eqb s (strip l)
  | Raise _ => false
  end.

Definition one_line (l : str) : bool :=
  negb (existsb (fun c => ascii_eqb c nl) l).

Definition line_ok (l : str) : bool := one_line l && stable l.

Definition blank (l : str) : bool := negb (nonempty (strip l)).

(** A column line: some text, not the closing line, no trailing comma. *)
Definition column_ok (l : str) : bool :=
  nonempty (strip l)
  && negb (startswith (strip l) (lit ")"))
  && negb (endswith (rstrip l) (lit ",")).

Definition body_ok (l : str) : bool := line_ok l && (blank l || column_ok l).

Definition item_ok (it : item) : bool :=
  match it with
  | Plain l => line_ok l && negb (endswith (strip l) (lit "("))
  | Block indent body close =>
      forallb isspace indent
      && line_ok (indent ++ lit "(")
      && forallb body_ok body
      && line_ok close
      && startswith (strip close) (lit ")")
  end.

Definition well_formed (items : list item) : bool := forallb item_ok items.

Definition columns (body : list str) : list str :=
  filter (fun l => negb (blank l)) body.

(** The commas are where [format] puts them: none before the first column,
    one before each later column. *)
Definition commas_placed (it : item) : bool :=
  match it with
  | Plain _ => true
  | Block _ body _ =>
      match columns body with
      | [] => true
      | c :: cs =>
          negb (startswith (lstrip c) (lit ","))
          && forallb (fun l => startswith (lstrip l) (lit ",")) cs
      end
  end.

Definition single_column (it : item) : bool :=
  match it with
  | Plain _ => true
  | Block _ body _ => length (columns body) <=? 1
  end.

(** The lines of a column list after one more pass. *)
Fixpoint recomma (first : bool) (body : list str) : list str :=
  match body with
  | [] => []
  | l :: ls =>
      if blank l then l :: recomma first ls
      else if first then l :: recomma false ls
      else (leading_ws l ++ lit "," ++ lstrip l) :: recomma false ls
  end.

Definition again (it : item) : item :=
  match it with
  | Plain l => Plain l
  | Block indent body close => Block indent (recomma true body) close
  end.

(** A formatted, self-consistent text, read line by line as the loop reads
    it.  [inside] says that a column list is open and [seen] that the open
    list has had its column line.  Every line is left as it is by the
    first two stages.  Outside of a list, a line whose stripped text ends
    with an opening parenthesis is its indentation followed by the
    parenthesis and nothing else, and opens a list.  Inside of a list, a
    line whose stripped text starts with a closing parenthesis closes it;
    any other line is blank, or is the one column line of the list and has
    no trailing comma.  The text may end inside of a list. *)
Fixpoint self_consistent (inside seen : bool) (lines : list str) : bool :=
  match lines with
  | [] => true
  | l :: ls =>
      stable l
      && if inside
         then if startswith (strip l) (lit ")")
              then self_consistent false false ls
              else if blank l
                   then self_consistent true seen ls
                   else negb seen
                        && negb (endswith (rstrip l) (lit ","))
                        && self_consistent true true ls
         else if endswith (strip l) (lit "(")
              then str_eqb l (leading_ws l ++ lit "(")
                   && self_consistent true false ls
              else self_consistent false false ls
  end.

(** [move_commas_to_start] of [ddl_formatter_combined_2.py], the earlier
    form of the loop: no keyword or header stage, no split of the opening
    line, and the test for an opening parenthesis comes first, in any
    state. *)
Definition move_commas_step (st : state) (line : str) : state * list str :=
  let stripped_line := strip line in
  if endswith stripped_line (lit "(")
  then (mkstate true (first_column st), [line])
  else if startswith stripped_line (lit ")")
  then (mkstate false (first_column st), [line])
  else if inside_columns st
  then
    let line := sub trailing_comma_regex (fun _ => []) line in
    if first_column st
    then (mkstate (inside_columns st) false, [line])
    else
      let stripped := lstrip line in
      let indent := indent_of line stripped in
      (st, [indent ++ lit "," ++ stripped])
  else (st, [line]).

Fixpoint move_commas_lines (st : state) (lines : list str)
  : state * list str :=
  match lines with
  | [] => (st, [])
  | line :: lines' =>
      let r := move_commas_step st line in
      let r' := move_commas_lines (fst r) lines' in
      (fst r', snd r ++ snd r')
  end.

Definition move_commas_to_start (ddl : str) : str :=
  join [nl] (snd (move_commas_lines initial (split_on nl ddl))).

(** ** Names of the output files

    [process_cli] and [_process_folder_thread] of
    [ddl_formatter_combined_4.py] and [process_folder] of the two other
    files pick the files of a folder and name their outputs with the same
    expressions. *)

Definition sql_ext : str := lit ".sql".
Definition formatted_ext : str := lit "_formatted.sql".

(** [filename.lower().endswith('.sql')] *)
Definition is_sql_file (filename : str) : bool :=
  endswith (lower filename) sql_ext.

(** [filename.replace('.sql', '_formatted.sql')] *)
Definition output_filename (filename : str) : str :=
  replace sql_ext formatted_ext filename.

(** The name in [_process_folder_thread]: the same replacement when
    ['.sql' in filename.lower()], the suffix appended otherwise. *)
Definition output_filename_gui (filename : str) : str :=
  if contains sql_ext (lower filename)
  then replace sql_ext formatted_ext filename
  else filename ++ formatted_ext.


(** ** The texts a pattern can consume *)

(** A pattern without capture groups. *)
Fixpoint groupless (r : re) : bool :=
  match r with
  | Seq a b | Alt a b => groupless a && groupless b
  | Star _ a => groupless a
  | Group _ _ => false
  | _ => true
  end.

Inductive star_lang (L : str -> Prop) : str -> Prop :=
| star_nil : star_lang L []
| star_more (t1 t2 : str) : L t1 -> star_lang L t2 -> star_lang L (t1 ++ t2).

(** The texts that a match of [r] can consume, whatever stands around
    them. *)
Fixpoint lang (r : re) (t : str) : Prop :=
  match r with
  | Eps | WordB | Eol => t = []
  | Chr f => exists x, t = [x] /\ f x = true
  | Seq a b => exists t1 t2, t = t1 ++ t2 /\ lang a t1 /\ lang b t2
  | Alt a b => lang a t \/ lang b t
  | Star _ a => star_lang (lang a) t
  | Group _ a => lang a t
  end.

(** The three parts of [create_statement_regex]. *)
Definition create_prefix_regex : re :=
  seqs
    [ word_i (lit "CREATE");
      plus Lazy (Alt dot space);
      Alt (word_i (lit "TABLE")) (word_i (lit "VIEW"));
      opt (seqs [ plus Greedy space; word_i (lit "IF");
                  plus Greedy space; word_i (lit "NOT");
                  plus Greedy space; word_i (lit "EXISTS") ]);
      plus Greedy space ].

Definition not_nl (c : ascii) : bool := negb (ascii_eqb c nl).

(** ** The formatter of [ddl_formatter_combined_5.py]

    An earlier [class DDLFormatter]: one pattern for tables and one for
    views, no keyword stage, and the two flags kept in the object. *)

(** A matcher consumes only texts of [L]: whenever it succeeds, it has
    handed to its continuation a position that lies a text of [L] further
    on. *)
Definition sound_for {A : Type} (L : str -> Prop) (m : @matcher A) : Prop :=
  forall p c k v,
    m p c k = Some v ->
    exists t q, k q c = Some v /\ rest p = t ++ rest q /\ L t.

(** The groups 2 and 3 of [create_statement_regex]. *)
Definition tail_regex : re :=
  Seq (Group 2 (plus Greedy (Chr ident_char))) (Group 3 (Star Greedy dot)).

Module Combined5.

(** [self.create_table_regex]: group 1 is
    "(CREATE(?:.|\s)+?TABLE(?:\s+IF\s+NOT\s+EXISTS)?\s+)", the groups 2 and 3 are
    those of [create_statement_regex]; [re.IGNORECASE]. *)
Definition create_table_regex : re :=
  seqs
    [ Group 1
        (seqs
           [ word_i (lit "CREATE");
             plus Lazy (Alt dot space);
             word_i (lit "TABLE");
             opt (seqs [ plus Greedy space; word_i (lit "IF");
                         plus Greedy space; word_i (lit "NOT");
                         plus Greedy space; word_i (lit "EXISTS") ]);
             plus Greedy space ]);
      Group 2 (plus Greedy (Chr ident_char));
      Group 3 (Star Greedy dot) ].

(** [self.create_view_regex]: group 1 is "(CREATE(?:.|\s)+?VIEW\s+)". *)
Definition create_view_regex : re :=
  seqs
    [ Group 1
        (seqs
           [ word_i (lit "CREATE");
             plus Lazy (Alt dot space);
             word_i (lit "VIEW");
             plus Greedy space ]);
      Group 2 (plus Greedy (Chr ident_char));
      Group 3 (Star Greedy dot) ].

(** The identifier of both functions: three parts first, then one or two. *)
Definition new_identifier (identifier : str) : option str :=
  let parts := split_on "."%char identifier in
  if length parts =? 3
  then Some (placeholder_upper ++ lit "." ++ join (lit ".") (tl parts))
  else if (length parts =? 1) || (length parts =? 2)
  then Some (placeholder_upper ++ lit "." ++ identifier)
  else None.

Definition _process_create_table_line (line : str) : result str :=
  match search create_table_regex line with
  | None => Ok line
  | Some m =>
      prefix <- attr (group m 1) ;;
      let prefix :=
        if negb (contains (lit " or replace ") (lower prefix))
        then lit "CREATE OR REPLACE TABLE " else prefix in
      table_identifier <- attr (group m 2) ;;
      match new_identifier table_identifier with
      | None => Ok line
      | Some new_id =>
          match group m 3 with
          | Some suffix => Ok (prefix ++ new_id ++ suffix)
          | None => Raise TypeError
          end
      end
  end.

Definition _process_create_view_line (line : str) : result str :=
  match search create_view_regex line with
  | None => Ok line
  | Some m =>
      prefix <- attr (group m 1) ;;
      let prefix :=
        if negb (contains (lit " or replace ") (lower prefix))
        then lit "CREATE OR REPLACE VIEW " else prefix in
      view_identifier <- attr (group m 2) ;;
      match new_identifier view_identifier with
      | None => Ok line
      | Some new_id =>
          match group m 3 with
          | Some suffix => Ok (prefix ++ new_id ++ suffix)
          | None => Raise TypeError
          end
      end
  end.

(** The first half of the loop body: the line and [stripped_line]. *)
Definition prepare (line : str) : result (str * str) :=
  let stripped_line := strip line in
  match search create_table_regex line with
  | Some _ =>
      line <- _process_create_table_line line ;;
      Ok (line, strip line)
  | None =>
      match search create_view_regex line with
      | Some _ =>
          line <- _process_create_view_line line ;;
          Ok (line, strip line)
      | None => Ok (line, stripped_line)
      end
  end.

(** The second half of the loop body; the flags are [self.inside_columns]
    and [self.first_column]. *)
Definition restructure (st : state) (line stripped_line : str)
  : state * list str :=
  if negb (inside_columns st) && endswith (rstrip stripped_line) (lit "(")
  then
    let paren_pos := rfind line "("%char in
    let create_line_part := rstrip (slice_to line paren_pos) in
    let indent := indent_of line (lstrip line) in
    (mkstate true true, [create_line_part; indent ++ lit "("])
  else if inside_columns st && startswith stripped_line (lit ")")
  then (mkstate false (first_column st), [line])
  else if inside_columns st && nonempty stripped_line
  then
    let line := sub trailing_comma_regex (fun _ => []) line in
    if first_column st
    then (mkstate (inside_columns st) false, [line])
    else
      let stripped := lstrip line in
      let indent := indent_of line stripped in
      (st, [indent ++ lit "," ++ stripped])
  else (st, [line]).

Definition step (st : state) (line : str) : result (state * list str) :=
  ls <- prepare line ;;
  Ok (restructure st (fst ls) (snd ls)).

Fixpoint for_lines (st : state) (lines : list str)
  : result (state * list str) :=
  match lines with
  | [] => Ok (st, [])
  | line :: lines' =>
      r <- step st line ;;
      r' <- for_lines (fst r) lines' ;;
      Ok (fst r', snd r ++ snd r')
  end.

(** The method [DDLFormatter.move_commas_to_start]: from the flags of the
    object to the flags it leaves and the text it returns. *)
Definition move_commas_to_start (st : state) (ddl : str)
  : result (state * str) :=
  r <- for_lines st (split_on nl ddl) ;;
  Ok (fst r, join [nl] (snd r)).

(** The function [move_commas_to_start] of the module: a new object for
    each call. *)
Definition move_commas_to_start_fresh (ddl : str) : result str :=
  r <- move_commas_to_start initial ddl ;;
  Ok (snd r).

End Combined5.

(** * Properties *)

(** ** Worked documents *)

(** C1: the single line [CREATE TABLE foo.bar (] becomes two lines, the
    header canonicalized to [CREATE OR REPLACE TABLE] with the placeholder
    put before the two-part identifier, then the parenthesis alone with the
    (empty) indentation of the source line. *)
Theorem format_create_table_header :
  for_lines initial [lit "CREATE TABLE foo.bar ("]
  = Ok (mkstate true true,
        [lit "CREATE OR REPLACE TABLE {{EDW_DB_NAME}}.foo.bar"; lit "("])
  /\ format (lit "CREATE TABLE foo.bar (")
     = Ok (text ["CREATE OR REPLACE TABLE {{EDW_DB_NAME}}.foo.bar"; "("]%string).
Proof. split; vm_compute; reflexivity. Qed.

(** C3, as the specification words it: the expected text has a space after each
    leading comma, and [format] does not produce it. *)
Lemma format_column_block_not_spaced :
  format column_block
  <> Ok (text ["NAME"; "("; "  a INT"; "  , b INT"; "  , c INT"; ")"]%string).
Proof. vm_compute. discriminate. Qed.

(** C3, amended: the column block is rewritten with the parenthesis on a
    line of its own, the first column as it was, and each later column with
    a comma directly before its text; these two commas are the only ones. *)
Theorem format_column_block :
  exists out,
    format column_block = Ok out
    /\ out = text ["NAME"; "("; "  a INT"; "  ,b INT"; "  ,c INT"; ")"]%string
    /\ count_occ ascii_dec out ","%char = 2.
Proof.
  exists (text ["NAME"; "("; "  a INT"; "  ,b INT"; "  ,c INT"; ")"]%string).
  split; [|split]; [vm_compute; reflexivity|reflexivity|vm_compute; reflexivity].
Qed.

(** ** The CREATE header *)

Lemma split_on_nonempty (sep : ascii) (s : str) : split_on sep s <> [].
Proof.
  destruct s as [|x s]; simpl; [discriminate|].
  destruct (ascii_eqb x sep); [discriminate|].
  destruct (split_on sep s); discriminate.
Qed.

(** C6: a header whose identifier has three dot-separated parts keeps the
    schema and the table and has the placeholder in the place of the
    database part. *)
Theorem three_part_identifier
  (line0 line : str) (m : mtch) (prefix identifier suffix db schema table : str)
  (Hline : normalized line0 = line)
  (Hm : search create_statement_regex line = Some m)
  (H1 : group m 1 = Some prefix)
  (H2 : group m 2 = Some identifier)
  (H3 : group m 3 = Some suffix)
  (Hparts : split_on "."%char identifier = [db; schema; table]) :
  let rewritten := placeholder_upper ++ lit "." ++ schema ++ lit "." ++ table in
  let line' := canonical_prefix prefix ++ rewritten ++ suffix in
  new_identifier identifier = Some rewritten
  /\ _process_create_statement line = Ok line'
  /\ prepare line0 = Ok (line', strip line').
Proof.
  intros rewritten line'.
  assert (Hn : new_identifier identifier = Some rewritten).
  { unfold new_identifier. rewrite Hparts. reflexivity. }
  assert (Hp : _process_create_statement line = Ok line').
  { unfold _process_create_statement. rewrite Hm, H1. simpl.
    rewrite H2. simpl. rewrite Hn, H3. reflexivity. }
  repeat split; trivial.
  unfold prepare. rewrite Hline, Hm, Hp. reflexivity.
Qed.

Lemma three_part_identifier_example :
  prepare (lit "create table a.b.c (")
  = Ok (lit "CREATE OR REPLACE TABLE {{EDW_DB_NAME}}.b.c (",
        lit "CREATE OR REPLACE TABLE {{EDW_DB_NAME}}.b.c (").
Proof.
  apply (three_part_identifier
           (lit "create table a.b.c (") (lit "CREATE TABLE a.b.c (")
           (mkmatch 0 (lit "CREATE TABLE a.b.c (")
              [(3, lit " ("); (2, lit "a.b.c"); (1, lit "CREATE TABLE ")])
           (lit "CREATE TABLE ") (lit "a.b.c") (lit " (")
           (lit "a") (lit "b") (lit "c"));
    vm_compute; reflexivity.
Defined.

(** ** Captures of a successful match *)

Lemma bound_cons (i j : nat) (t : str) (c : caps) :
  bound i c -> bound i ((j, t) :: c).
Proof.
  unfold bound. simpl. destruct (Nat.eqb i j); [discriminate|trivial].
Qed.

Lemma bound_here (i : nat) (t : str) (c : caps) : bound i ((i, t) :: c).
Proof. unfold bound. simpl. rewrite Nat.eqb_refl. discriminate. Qed.

Section Binds.
Context {A : Type}.

Lemma extends_star (g : greed) (m : @matcher A) :
  extends [] m -> forall fuel, extends [] (star g m fuel).
Proof.
  intros Hm fuel. induction fuel as [|f IH]; intros p c k v H; simpl in H.
  - exists p, c. split; [exact H|]. intros i [[]|Hi]; exact Hi.
  - assert (Hmore :
      m p c (fun p' c' =>
               if length (rest p') <? length (rest p)
               then star g m f p' c' k else None) = Some v ->
      exists p' c', k p' c' = Some v
                    /\ (forall i, In i [] \/ bound i c -> bound i c')).
    { intros H'. apply Hm in H' as (p1 & c1 & H1 & Hb1).
      destruct (length (rest p1) <? length (rest p)); [|discriminate].
      apply IH in H1 as (p2 & c2 & H2 & Hb2).
      exists p2, c2. split; [exact H2|].
      intros i [[]|Hi]. apply Hb2. right. apply Hb1. right. exact Hi. }
    assert (Hstop :
      k p c = Some v ->
      exists p' c', k p' c' = Some v
                    /\ (forall i, In i [] \/ bound i c -> bound i c')).
    { intros H'. exists p, c. split; [exact H'|]. intros i [[]|Hi]; exact Hi. }
    destruct g; unfold orelse in H.
    + destruct (m p c _) eqn:E; [injection H as ->; auto|auto].
    + destruct (k p c) eqn:E; [injection H as ->; auto|auto].
Qed.

Lemma run_extends (r : re) : extends (binds r) (@run A r).
Proof.
  induction r as [|f|a IHa b IHb|a IHa b IHb|g a IHa|i a IHa| |];
    intros p c k v H; simpl in H.
  - exists p, c. split; [exact H|]. intros i [[]|Hi]; exact Hi.
  - destruct (rest p) as [|x t]; [discriminate|].
    destruct (f x); [|discriminate].
    eexists _, c. split; [exact H|]. intros i [[]|Hi]; exact Hi.
  - apply IHa in H as (p1 & c1 & H1 & Hb1).
    apply IHb in H1 as (p2 & c2 & H2 & Hb2).
    exists p2, c2. split; [exact H2|].
    intros i [Hi|Hi]; simpl in Hi.
    + apply in_app_or in Hi as [Hi|Hi].
      * apply Hb2. right. apply Hb1. left. exact Hi.
      * apply Hb2. left. exact Hi.
    + apply Hb2. right. apply Hb1. right. exact Hi.
  - unfold orelse in H.
    destruct (run a p c k) eqn:E.
    + injection H as ->. apply IHa in E as (p1 & c1 & H1 & Hb1).
      exists p1, c1. split; [exact H1|].
      intros i [[]|Hi]. apply Hb1. right. exact Hi.
    + apply IHb in H as (p1 & c1 & H1 & Hb1).
      exists p1, c1. split; [exact H1|].
      intros i [[]|Hi]. apply Hb1. right. exact Hi.
  - assert (Ha : extends [] (@run A a)).
    { intros p0 c0 k0 v0 H0. apply IHa in H0 as (p1 & c1 & H1 & Hb1).
      exists p1, c1. split; [exact H1|].
      intros i [[]|Hi]. apply Hb1. right. exact Hi. }
    exact (extends_star g _ Ha _ p c k v H).
  - apply IHa in H as (p1 & c1 & H1 & Hb1).
    eexists p1, _. split; [exact H1|].
    intros j [[<-|Hj]|Hj].
    + apply bound_here.
    + apply bound_cons. apply Hb1. left. exact Hj.
    + apply bound_cons. apply Hb1. right. exact Hj.
  - destruct (boundary p); [|discriminate].
    exists p, c. split; [exact H|]. intros i [[]|Hi]; exact Hi.
  - destruct (at_eol p); [|discriminate].
    exists p, c. split; [exact H|]. intros i [[]|Hi]; exact Hi.
Qed.
End Binds.

(** ** The fuel of a repetition

    Every iteration of a repetition consumes at least one character, so the
    number of characters left is fuel enough: more fuel changes nothing. *)

Section Fuel.
Context {A : Type}.

Lemma star_ext (g : greed) (m : @matcher A) :
  (forall p c k1 k2, (forall q d, k1 q d = k2 q d) -> m p c k1 = m p c k2) ->
  forall fuel p c k1 k2,
    (forall q d, k1 q d = k2 q d) ->
    star g m fuel p c k1 = star g m fuel p c k2.
Proof.
  intros Hm fuel. induction fuel as [|f IH]; intros p c k1 k2 Hk; cbn [star].
  - apply Hk.
  - rewrite (Hk p c).
    rewrite (Hm p c _ (fun p' c' =>
                         if length (rest p') <? length (rest p)
                         then star g m f p' c' k2 else None)); [reflexivity|].
    intros q d. destruct (length (rest q) <? length (rest p)); [|reflexivity].
    apply IH. exact Hk.
Qed.

Lemma run_ext (r : re) :
  forall p c (k1 k2 : @cont A),
    (forall q d, k1 q d = k2 q d) -> run r p c k1 = run r p c k2.
Proof.
  induction r as [|f|a IHa b IHb|a IHa b IHb|g a IHa|i a IHa| |];
    intros p c k1 k2 Hk; cbn [run].
  - apply Hk.
  - destruct (rest p) as [|x t]; [reflexivity|].
    destruct (f x); [apply Hk|reflexivity].
  - apply IHa. intros q d. apply IHb. exact Hk.
  - rewrite (IHa p c k1 k2 Hk), (IHb p c k1 k2 Hk). reflexivity.
  - apply star_ext; [exact IHa|exact Hk].
  - apply IHa. intros q d. apply Hk.
  - destruct (boundary p); [apply Hk|reflexivity].
  - destruct (at_eol p); [apply Hk|reflexivity].
Qed.

Lemma run_fails (r : re) (p : pos) (c : caps) :
  run r p c (fun _ _ => @None A) = None.
Proof.
  destruct (run r p c (fun _ _ => None)) as [v|] eqn:E; [|reflexivity].
  apply run_extends in E as (p' & c' & E & _). discriminate.
Qed.

Lemma star_no_room (g : greed) (a : re) (fuel : nat)
      (p : pos) (c : caps) (k : @cont A) :
  length (rest p) = 0 -> star g (run a) fuel p c k = k p c.
Proof.
  intros H0. destruct fuel as [|f]; [reflexivity|]. cbn [star]. rewrite H0.
  rewrite (run_ext a p c _ (fun _ _ => None)), run_fails
    by (intros q d; destruct (length (rest q) <? 0) eqn:E;
        [apply Nat.ltb_lt in E; lia|reflexivity]).
  destruct g; unfold orelse; [reflexivity|]. destruct (k p c); reflexivity.
Qed.

Lemma star_fuel (g : greed) (a : re) (f1 : nat) :
  forall f2 p c (k : @cont A),
    length (rest p) <= f1 -> length (rest p) <= f2 ->
    star g (run a) f1 p c k = star g (run a) f2 p c k.
Proof.
  induction f1 as [|f1 IH]; intros f2 p c k H1 H2.
  - rewrite !star_no_room by lia. reflexivity.
  - destruct f2 as [|f2]; [rewrite !star_no_room by lia; reflexivity|].
    cbn [star].
    rewrite (run_ext a p c _
               (fun p' c' =>
                  if length (rest p') <? length (rest p)
                  then star g (run a) f2 p' c' k else None)); [reflexivity|].
    intros q d. destruct (length (rest q) <? length (rest p)) eqn:E;
      [|reflexivity].
    apply Nat.ltb_lt in E. apply IH; lia.
Qed.

(** The matcher with any larger amount of fuel for a repetition gives what
    [run] gives. *)
Lemma run_star_fuel (g : greed) (a : re) (fuel : nat)
      (p : pos) (c : caps) (k : @cont A) :
  length (rest p) <= fuel ->
  star g (run a) fuel p c k = run (Star g a) p c k.
Proof. intros H. cbn [run]. apply star_fuel; [exact H|lia]. Qed.

End Fuel.

Lemma search_from_groups (r : re) (s : str) :
  forall start pv m i,
    search_from r start pv s = Some m -> In i (binds r) -> group m i <> None.
Proof.
  induction s as [|x t IH]; intros start pv m i H Hi; simpl in H;
    unfold match_at, exec in H.
  - destruct (run r _ _ _) as [[p' c']|] eqn:E; [|discriminate].
    injection H as <-. apply run_extends in E as (p1 & c1 & H1 & Hb).
    injection H1 as -> ->. unfold group. simpl. apply Hb. left. exact Hi.
  - destruct (run r _ _ _) as [[p' c']|] eqn:E.
    + injection H as <-. apply run_extends in E as (p1 & c1 & H1 & Hb).
      injection H1 as -> ->. unfold group. simpl. apply Hb. left. exact Hi.
    + eapply IH; eauto.
Qed.

Lemma create_groups (line : str) (m : mtch) :
  search create_statement_regex line = Some m ->
  exists prefix identifier suffix,
    group m 1 = Some prefix /\ group m 2 = Some identifier
    /\ group m 3 = Some suffix.
Proof.
  intros H.
  assert (Hb : forall i, In i [1; 2; 3] -> group m i <> None).
  { intros i Hi. apply (search_from_groups _ _ _ _ _ _ H).
    simpl in Hi. simpl. intuition. }
  destruct (group m 1) as [a|] eqn:E1; [|exfalso; apply (Hb 1); simpl; auto].
  destruct (group m 2) as [b|] eqn:E2; [|exfalso; apply (Hb 2); simpl; auto].
  destruct (group m 3) as [d|] eqn:E3; [|exfalso; apply (Hb 3); simpl; auto].
  exists a, b, d. auto.
Qed.

(** ** No step of the formatter raises *)

Lemma process_create_statement_ok (line : str) :
  exists line', _process_create_statement line = Ok line'.
Proof.
  unfold _process_create_statement.
  destruct (search create_statement_regex line) as [m|] eqn:E; [|eauto].
  destruct (create_groups _ _ E) as (p & i & s & -> & -> & ->). simpl.
  destruct (new_identifier i); eauto.
Qed.

Lemma prepare_ok (line : str) : exists ls, prepare line = Ok ls.
Proof.
  unfold prepare.
  destruct (search create_statement_regex (normalized line)); [|eauto].
  destruct (process_create_statement_ok (normalized line)) as [l' ->].
  simpl. eauto.
Qed.

Lemma step_ok (st : state) (line : str) : exists r, step st line = Ok r.
Proof.
  unfold step. destruct (prepare_ok line) as [ls ->]. simpl. eauto.
Qed.

Lemma for_lines_ok (lines : list str) :
  forall st, exists r, for_lines st lines = Ok r.
Proof.
  induction lines as [|l ls IH]; intros st; simpl; [eauto|].
  destruct (step_ok st l) as [r ->]. simpl.
  destruct (IH (fst r)) as [r' ->]. simpl. eauto.
Qed.

(** C9: [format] gives a text for every input and raises nothing; the
    empty text, a block that is never closed, a closing parenthesis with
    nothing open and a text without SQL are formatted like any other; equal
    inputs give equal outputs. *)
Theorem format_total :
  (forall ddl, exists out, format ddl = Ok out)
  /\ (forall ddl ddl', ddl = ddl' -> format ddl = format ddl')
  /\ format [] = Ok []
  /\ format (text ["t ("; "  a,"; "  b"]%string)
     = Ok (text ["t"; "("; "  a"; "  ,b"]%string)
  /\ format (text [")"; "x,"]%string) = Ok (text [")"; "x,"]%string)
  /\ format (lit "hello, world") = Ok (lit "hello, world").
Proof.
  split; [|split; [|repeat split; vm_compute; reflexivity]].
  - intros ddl. unfold format.
    destruct (for_lines_ok (split_on nl ddl) initial) as [r ->]. simpl. eauto.
  - intros ddl ddl' ->. reflexivity.
Qed.

(** C5, as the specification words it, fails: a header with a four-part identifier
    comes out of the first half of the loop body with its keywords in upper
    case, so it is not the line that came in. *)
Lemma four_part_header_keeps_keyword_case :
  let line0 := lit "create table a.b.c.d (" in
  (exists m identifier,
      search create_statement_regex (normalized line0) = Some m
      /\ group m 2 = Some identifier
      /\ length (split_on "."%char identifier) = 4)
  /\ prepare line0
     = Ok (lit "CREATE TABLE a.b.c.d (", lit "CREATE TABLE a.b.c.d (")
  /\ lit "CREATE TABLE a.b.c.d (" <> line0.
Proof.
  split; [|split].
  - exists (mkmatch 0 (lit "CREATE TABLE a.b.c.d (")
              [(3, lit " ("); (2, lit "a.b.c.d"); (1, lit "CREATE TABLE ")]),
           (lit "a.b.c.d").
    split; [|split]; vm_compute; reflexivity.
  - vm_compute. reflexivity.
  - vm_compute. discriminate.
Qed.

(** C5, amended: when the identifier has more than three parts (it always
    has at least one), [_process_create_statement] gives back the line it
    was given, which is the keyword-normalized line: the prefix and the
    identifier are not rewritten, the keyword case is. *)
Theorem unrecognized_identifier_shape
  (line0 line : str) (m : mtch) (identifier : str)
  (Hline : normalized line0 = line)
  (Hm : search create_statement_regex line = Some m)
  (H2 : group m 2 = Some identifier)
  (Hparts : 3 < length (split_on "."%char identifier)) :
  1 <= length (split_on "."%char identifier)
  /\ new_identifier identifier = None
  /\ _process_create_statement line = Ok line
  /\ prepare line0 = Ok (normalized line0, strip (normalized line0)).
Proof.
  assert (Hn : new_identifier identifier = None).
  { unfold new_identifier.
    destruct (length (split_on "."%char identifier)) as [|[|[|[|n]]]] eqn:E;
      try lia; reflexivity. }
  assert (Hp : _process_create_statement line = Ok line).
  { unfold _process_create_statement. rewrite Hm.
    destruct (create_groups _ _ Hm) as (p & i & s & -> & Hi & _).
    rewrite H2. simpl. rewrite Hn. reflexivity. }
  repeat split; trivial; [lia|].
  unfold prepare. rewrite Hline, Hm, Hp. simpl. reflexivity.
Qed.

Lemma unrecognized_identifier_shape_example :
  prepare (lit "create table a.b.c.d (")
  = Ok (normalized (lit "create table a.b.c.d ("),
        strip (normalized (lit "create table a.b.c.d ("))).
Proof.
  apply (unrecognized_identifier_shape
           (lit "create table a.b.c.d (") (lit "CREATE TABLE a.b.c.d (")
           (mkmatch 0 (lit "CREATE TABLE a.b.c.d (")
              [(3, lit " ("); (2, lit "a.b.c.d"); (1, lit "CREATE TABLE ")])
           (lit "a.b.c.d"));
    vm_compute; try reflexivity; lia.
Defined.

(** ** The trailing comma *)

Lemma ascii_eqb_eq (a b : ascii) : ascii_eqb a b = true <-> a = b.
Proof. apply Ascii.eqb_eq. Qed.

Lemma ascii_eqb_refl (a : ascii) : ascii_eqb a a = true.
Proof. apply Ascii.eqb_refl. Qed.

Lemma ascii_eqb_neq (a b : ascii) : ascii_eqb a b = false <-> a <> b.
Proof. apply Ascii.eqb_neq. Qed.

Lemma ascii_eqb_sym (a b : ascii) : ascii_eqb a b = ascii_eqb b a.
Proof. apply Ascii.eqb_sym. Qed.

Lemma isspace_nl : isspace nl = true.
Proof. reflexivity. Qed.

Lemma spaces_to_eol (t : str) :
  forall pv c fuel,
    length t <= fuel ->
    star Greedy (run space) fuel (mkpos pv t) c
         (fun p' c' => run Eol p' c' accept)
    = if forallb isspace t then Some (mkpos (last_prev pv t) [], c) else None.
Proof.
  induction t as [|x t IH]; intros pv c fuel Hf.
  - destruct fuel; reflexivity.
  - destruct fuel as [|f]; [simpl in Hf; lia|].
    simpl in Hf. cbn [star run space rest forallb last_prev].
    assert (Hlt : (length t <? length (x :: t)) = true)
      by (apply Nat.ltb_lt; simpl; lia).
    destruct (isspace x) eqn:Ex.
    + rewrite Hlt, IH by lia. simpl.
      destruct (forallb isspace t) eqn:Et; [reflexivity|].
      destruct t as [|y t]; [discriminate|reflexivity].
    + simpl. unfold at_eol. simpl.
      destruct t as [|y t]; [|reflexivity].
      destruct (ascii_eqb x nl) eqn:En; [|reflexivity].
      apply ascii_eqb_eq in En. subst x. rewrite isspace_nl in Ex. discriminate.
Qed.

Lemma exec_trailing_comma (pv : option ascii) (s : str) :
  exec trailing_comma_regex (mkpos pv s)
  = match s with
    | [] => None
    | x :: t =>
        if ascii_eqb x ","%char && forallb isspace t
        then Some (mkpos (last_prev (Some x) t) [], [])
        else None
    end.
Proof.
  unfold exec, trailing_comma_regex. destruct s as [|x t]; [reflexivity|].
  cbn [seqs run chr rest].
  rewrite (ascii_eqb_sym ","%char x).
  destruct (ascii_eqb x ","%char); [|reflexivity].
  cbn [rest andb]. apply (spaces_to_eol t (Some x) [] (length t)). lia.
Qed.

Lemma sub_trailing_comma_skip (s : str) :
  forall start pv,
    sub_from trailing_comma_regex (fun _ => []) start pv (length s) s = [].
Proof.
  induction s as [|x t IH]; intros start pv; cbn [sub_from length].
  - unfold match_at. rewrite exec_trailing_comma. reflexivity.
  - apply IH.
Qed.

Lemma sub_trailing_comma_cut (s : str) :
  forall start pv,
    sub_from trailing_comma_regex (fun _ => []) start pv 0 s = cut_comma s.
Proof.
  induction s as [|x t IH]; intros start pv.
  - cbn [sub_from cut_comma]. unfold match_at.
    rewrite exec_trailing_comma. reflexivity.
  - cbn [sub_from cut_comma]. unfold match_at. rewrite exec_trailing_comma.
    destruct (ascii_eqb x ","%char && forallb isspace t).
    + unfold between. cbn [m_text rest length]. rewrite Nat.sub_0_r.
      change (S (length t)) with (length (x :: t)).
      rewrite firstn_all. cbn [length app].
      apply sub_trailing_comma_skip.
    + rewrite IH. reflexivity.
Qed.

(** ** Stripping *)

Lemma takewhile_dropwhile (f : ascii -> bool) (s : str) :
  takewhile f s ++ dropwhile f s = s.
Proof.
  induction s as [|x t IH]; simpl; [reflexivity|].
  destruct (f x); simpl; [rewrite IH|]; reflexivity.
Qed.

Lemma takewhile_all (f : ascii -> bool) (s : str) :
  forallb f (takewhile f s) = true.
Proof.
  induction s as [|x t IH]; simpl; [reflexivity|].
  destruct (f x) eqn:E; simpl; [rewrite E, IH|]; reflexivity.
Qed.

Lemma dropwhile_length (f : ascii -> bool) (s : str) :
  length (dropwhile f s) <= length s.
Proof.
  induction s as [|x t IH]; simpl; [lia|].
  destruct (f x); simpl; lia.
Qed.

Lemma dropwhile_app_all (f : ascii -> bool) (l r : str) :
  forallb f l = true -> dropwhile f (l ++ r) = dropwhile f r.
Proof.
  induction l as [|x l IH]; simpl; [reflexivity|].
  intros H. apply andb_prop in H as [-> H]. auto.
Qed.

Lemma forallb_rev (f : ascii -> bool) (l : str) :
  forallb f (rev l) = forallb f l.
Proof.
  induction l as [|x l IH]; simpl; [reflexivity|].
  rewrite forallb_app, IH. simpl. rewrite andb_true_r. apply andb_comm.
Qed.

Lemma indent_of_lstrip (s : str) : indent_of s (lstrip s) = leading_ws s.
Proof.
  unfold indent_of, lstrip, leading_ws.
  induction s as [|x t IH]; [reflexivity|].
  cbn [dropwhile takewhile]. destruct (isspace x).
  - pose proof (dropwhile_length isspace t).
    replace (length (x :: t) - length (dropwhile isspace t))
      with (S (length t - length (dropwhile isspace t)))
      by (change (length (x :: t)) with (S (length t)); lia).
    rewrite firstn_cons, IH. reflexivity.
  - rewrite Nat.sub_diag. reflexivity.
Qed.

Lemma leading_ws_lstrip (s : str) : leading_ws s ++ lstrip s = s.
Proof. apply takewhile_dropwhile. Qed.

Lemma rstrip_split (s : str) :
  exists ws, s = rstrip s ++ ws /\ forallb isspace ws = true.
Proof.
  exists (rev (takewhile isspace (rev s))). split.
  - unfold rstrip. rewrite <- rev_app_distr, takewhile_dropwhile.
    symmetry. apply rev_involutive.
  - rewrite forallb_rev. apply takewhile_all.
Qed.

Lemma rstrip_app_ws (body ws : str) (c : ascii) :
  isspace c = false -> forallb isspace ws = true ->
  rstrip (body ++ c :: ws) = body ++ [c].
Proof.
  intros Hc Hws. unfold rstrip.
  rewrite rev_app_distr. simpl. rewrite <- app_assoc. simpl.
  rewrite dropwhile_app_all by (rewrite forallb_rev; exact Hws).
  simpl. rewrite Hc. simpl. rewrite rev_involutive. reflexivity.
Qed.

Lemma startswith_nil (s : str) : startswith s [] = true.
Proof. destruct s; reflexivity. Qed.

Lemma startswith_app (p s : str) : startswith (p ++ s) p = true.
Proof.
  induction p as [|x p IH]; simpl; [destruct s; reflexivity|].
  rewrite ascii_eqb_refl. exact IH.
Qed.

Lemma startswith_inv (p : str) :
  forall s, startswith s p = true -> exists t, s = p ++ t.
Proof.
  induction p as [|y p IH]; intros s H; [exists s; reflexivity|].
  destruct s as [|x s]; [discriminate|]. simpl in H.
  apply andb_prop in H as [Hx H]. apply ascii_eqb_eq in Hx. subst y.
  destruct (IH _ H) as [t ->]. exists t. reflexivity.
Qed.

Lemma endswith_char_inv (s : str) (c : ascii) :
  endswith s [c] = true -> exists body, s = body ++ [c].
Proof.
  unfold endswith. intros H. apply startswith_inv in H as [t H].
  exists (rev t). rewrite <- (rev_involutive s), H. reflexivity.
Qed.

Lemma endswith_char_app (body : str) (c : ascii) :
  endswith (body ++ [c]) [c] = true.
Proof.
  unfold endswith. rewrite rev_app_distr. simpl. rewrite ascii_eqb_refl.
  apply startswith_nil.
Qed.

Lemma cut_comma_body (body ws : str) :
  forallb isspace ws = true -> cut_comma (body ++ ","%char :: ws) = body.
Proof.
  intros Hws. induction body as [|x body IH]; simpl.
  - rewrite Hws. reflexivity.
  - rewrite forallb_app. simpl.
    rewrite andb_false_r, andb_false_r, IH. reflexivity.
Qed.

Lemma cut_comma_id (s : str) :
  (forall body ws, forallb isspace ws = true -> s <> body ++ ","%char :: ws) ->
  cut_comma s = s.
Proof.
  induction s as [|x t IH]; intros H; simpl; [reflexivity|].
  destruct (ascii_eqb x ","%char) eqn:Ex; simpl.
  - apply ascii_eqb_eq in Ex. subst x.
    destruct (forallb isspace t) eqn:Et.
    + exfalso. apply (H [] t Et). reflexivity.
    + f_equal. apply IH. intros body ws Hws ->.
      apply (H (","%char :: body) ws Hws). reflexivity.
  - f_equal. apply IH. intros body ws Hws ->.
    apply (H (x :: body) ws Hws). reflexivity.
Qed.

Lemma cut_comma_drop (s : str) : cut_comma s = drop_trailing_comma s.
Proof.
  unfold drop_trailing_comma.
  destruct (rstrip_split s) as (ws & Hs & Hws).
  destruct (endswith (rstrip s) (lit ",")) eqn:E.
  - apply endswith_char_inv in E as [body Hb].
    rewrite Hb, removelast_last. rewrite Hb in Hs. rewrite Hs at 1.
    rewrite <- app_assoc. apply cut_comma_body. exact Hws.
  - apply cut_comma_id. intros body ws' Hws' Heq.
    rewrite Heq, rstrip_app_ws in E by (trivial; reflexivity).
    change (lit ",") with [","%char] in E.
    rewrite endswith_char_app in E. discriminate.
Qed.

Lemma sub_trailing_comma (line : str) :
  sub trailing_comma_regex (fun _ => []) line = drop_trailing_comma line.
Proof.
  unfold sub. rewrite sub_trailing_comma_cut. apply cut_comma_drop.
Qed.

(** What a trailing comma is: [drop_trailing_comma] cuts the line before a
    comma that only white space follows, and changes no other line. *)
Lemma drop_trailing_comma_spec (line : str) :
  (forall body ws,
      forallb isspace ws = true -> line = body ++ lit "," ++ ws ->
      drop_trailing_comma line = body)
  /\ ((forall body ws,
          forallb isspace ws = true -> line <> body ++ lit "," ++ ws) ->
      drop_trailing_comma line = line).
Proof.
  rewrite <- cut_comma_drop. split.
  - intros body ws Hws ->. apply cut_comma_body. exact Hws.
  - intros H. apply cut_comma_id. exact H.
Qed.

Lemma dropwhile_fixed (f : ascii -> bool) (s : str) :
  match s with [] => true | x :: _ => negb (f x) end = true ->
  dropwhile f s = s.
Proof.
  destruct s as [|x t]; [reflexivity|]. simpl. intros H.
  apply negb_true_iff in H. rewrite H. reflexivity.
Qed.

Lemma dropwhile_head (f : ascii -> bool) (s : str) :
  match dropwhile f s with [] => true | x :: _ => negb (f x) end = true.
Proof.
  induction s as [|x t IH]; [reflexivity|]. simpl.
  destruct (f x) eqn:E; [exact IH|]. simpl. rewrite E. reflexivity.
Qed.

(** Stripped text has no white space left at its end. *)
Lemma rstrip_strip (s : str) : rstrip (strip s) = strip s.
Proof.
  unfold strip, lstrip, rstrip at 1.
  set (d := dropwhile isspace (rev s)).
  assert (Hd : match d with [] => true | x :: _ => negb (isspace x) end = true)
    by apply dropwhile_head.
  change (rstrip s) with (rev d).
  set (u := dropwhile isspace (rev d)).
  assert (Hu : rev d = takewhile isspace (rev d) ++ u)
    by (symmetry; apply takewhile_dropwhile).
  apply (f_equal (@rev ascii)) in Hu.
  rewrite rev_involutive, rev_app_distr in Hu.
  rewrite dropwhile_fixed; [apply rev_involutive|].
  destruct (rev u) as [|h t]; [reflexivity|].
  rewrite Hu in Hd. exact Hd.
Qed.

(** ** The placeholder *)

Lemma replace_from_skip (old new : str) (s : str) :
  forall n, replace_from old new n s = replace_from old new 0 (skipn n s).
Proof.
  induction s as [|x t IH]; intros n.
  - destruct n; reflexivity.
  - destruct n as [|n]; [reflexivity|]. cbn [replace_from skipn]. apply IH.
Qed.

Lemma replace_hit (s' : str) :
  replace placeholder_upper placeholder_lower (placeholder_upper ++ s')
  = placeholder_lower ++ replace placeholder_upper placeholder_lower s'.
Proof.
  unfold replace.
  change (placeholder_upper ++ s')
    with ("{"%char :: (lit "{EDW_DB_NAME}}" ++ s')).
  cbn [replace_from].
  change ("{"%char :: (lit "{EDW_DB_NAME}}" ++ s'))
    with (placeholder_upper ++ s').
  rewrite startswith_app, replace_from_skip. reflexivity.
Qed.

Lemma replace_miss (x : ascii) (t : str) :
  startswith (x :: t) placeholder_upper = false ->
  replace placeholder_upper placeholder_lower (x :: t)
  = x :: replace placeholder_upper placeholder_lower t.
Proof. intros H. unfold replace. cbn [replace_from]. rewrite H. reflexivity. Qed.

Lemma replace_cases (s : str) :
  (exists s', s = placeholder_upper ++ s')
  \/ s = []
  \/ (exists x t, s = x :: t /\ startswith s placeholder_upper = false).
Proof.
  destruct (startswith s placeholder_upper) eqn:E.
  - left. apply startswith_inv. exact E.
  - right. destruct s as [|x t]; [left; reflexivity|right; eauto].
Qed.

Lemma replace_length (n : nat) :
  forall s, length s <= n ->
            length (replace placeholder_upper placeholder_lower s) = length s.
Proof.
  induction n as [|n IH]; intros s Hn.
  - destruct s; [reflexivity|simpl in Hn; lia].
  - destruct (replace_cases s) as [[s' ->]|[->|(x & t & -> & Hx)]].
    + rewrite replace_hit, !length_app, IH; [reflexivity|].
      rewrite length_app in Hn. simpl in Hn. lia.
    + reflexivity.
    + rewrite replace_miss by exact Hx. simpl. rewrite IH; [reflexivity|].
      simpl in Hn. lia.
Qed.

(** Text without an opening brace that shows after the replacement was
    there before it. *)
Lemma replace_reflects (u : str) :
  no_brace u = true ->
  forall t,
    startswith (replace placeholder_upper placeholder_lower t) u = true ->
    startswith t u = true.
Proof.
  intros Hu. induction u as [|c u IH]; intros t H; [apply startswith_nil|].
  simpl in Hu. apply andb_prop in Hu as [Hc Hu].
  destruct (replace_cases t) as [[s' ->]|[->|(x & t' & -> & Hx)]].
  - rewrite replace_hit in H.
    change placeholder_lower with ("{"%char :: lit "{edw_db_name}}") in H.
    cbn [app startswith] in H. rewrite ascii_eqb_sym in H.
    destruct (ascii_eqb c "{"%char); discriminate.
  - discriminate.
  - rewrite replace_miss in H by exact Hx. simpl in H. simpl.
    apply andb_prop in H as [-> H]. apply IH; assumption.
Qed.

Lemma skipn_app_ge {A} (n : nat) (l r : list A) :
  length l <= n -> skipn n (l ++ r) = skipn (n - length l) r.
Proof.
  intros H. rewrite skipn_app, skipn_all2 by exact H. reflexivity.
Qed.

(** No occurrence of the upper-case placeholder is left. *)
Lemma replace_no_upper (n : nat) :
  forall s i,
    length s <= n ->
    occurs_at placeholder_upper
      (replace placeholder_upper placeholder_lower s) i = false.
Proof.
  unfold occurs_at.
  induction n as [|n IH]; intros s i Hn.
  - destruct s; [|simpl in Hn; lia]. destruct i; reflexivity.
  - destruct (replace_cases s) as [[s' ->]|[->|(x & t & -> & Hx)]].
    + rewrite replace_hit. rewrite length_app in Hn.
      change (length placeholder_upper) with 15 in Hn.
      destruct (Nat.lt_ge_cases i 15) as [Hi|Hi].
      * do 15 (destruct i as [|i]; [reflexivity|]). lia.
      * rewrite skipn_app_ge by exact Hi. apply IH. lia.
    + destruct i; reflexivity.
    + rewrite replace_miss by exact Hx. simpl in Hn.
      destruct i as [|i]; [|cbn [skipn]; apply IH; lia].
      cbn [skipn].
      destruct (startswith (x :: replace placeholder_upper placeholder_lower t)
                  placeholder_upper) eqn:E; [|reflexivity].
      rewrite <- Hx.
      change placeholder_upper
        with ("{"%char :: "{"%char :: lit "EDW_DB_NAME}}") in E |- *.
      cbn [startswith] in E |- *.
      apply andb_prop in E as [-> E].
      destruct (replace_cases t) as [[s' ->]|[->|(y & t' & -> & Hy)]].
      * rewrite replace_hit in E. discriminate.
      * discriminate.
      * rewrite replace_miss in E by exact Hy. cbn [startswith] in E.
        apply andb_prop in E as [Ey E].
        apply replace_reflects in E; [|reflexivity].
        cbn [startswith andb]. rewrite Ey, E. reflexivity.
Qed.

(** Every occurrence of the upper-case placeholder has become the
    lower-case one, at the same index. *)
Lemma replace_upper_to_lower (n : nat) :
  forall s i,
    length s <= n ->
    occurs_at placeholder_upper s i = true ->
    occurs_at placeholder_lower
      (replace placeholder_upper placeholder_lower s) i = true.
Proof.
  unfold occurs_at.
  induction n as [|n IH]; intros s i Hn H.
  - destruct s; [|simpl in Hn; lia]. destruct i; discriminate.
  - destruct (replace_cases s) as [[s' ->]|[->|(x & t & -> & Hx)]].
    + rewrite replace_hit. rewrite length_app in Hn.
      change (length placeholder_upper) with 15 in Hn.
      destruct (Nat.lt_ge_cases i 15) as [Hi|Hi].
      * destruct i as [|i]; [apply startswith_app|].
        exfalso. do 14 (destruct i as [|i]; [discriminate|]). lia.
      * rewrite skipn_app_ge in H |- * by exact Hi. apply IH; [lia|exact H].
    + destruct i; discriminate.
    + destruct i as [|i]; [cbn [skipn] in H; congruence|].
      rewrite replace_miss by exact Hx. cbn [skipn] in *. simpl in Hn.
      apply IH; [lia|exact H].
Qed.

(** C7: before the CREATE stage looks at a line, the keyword normalizer
    has run on it and every upper-case placeholder in the outcome has been
    put back to the lower-case form, at the same place; the line keeps its
    length and no upper-case placeholder is left in it. *)
Theorem placeholder_forced_back (line0 : str) :
  let upcased := _uppercase_keywords line0 in
  let line := normalized line0 in
  line = replace placeholder_upper placeholder_lower upcased
  /\ length line = length upcased
  /\ (forall i, occurs_at placeholder_upper line i = false)
  /\ (forall i, occurs_at placeholder_upper upcased i = true ->
                occurs_at placeholder_lower line i = true)
  /\ prepare line0
     = match search create_statement_regex line with
       | Some _ =>
           line' <- _process_create_statement line ;; Ok (line', strip line')
       | None => Ok (line, strip line0)
       end.
Proof.
  intros upcased line. unfold line, normalized. fold upcased.
  split; [reflexivity|split; [|split; [|split]]].
  - apply (replace_length (length upcased)). lia.
  - intros i. apply (replace_no_upper (length upcased)). lia.
  - intros i. apply (replace_upper_to_lower (length upcased)). lia.
  - reflexivity.
Qed.

(** ** The keyword normalizer *)

Ltac each_char c :=
  destruct c as [[] [] [] [] [] [] [] []]; vm_compute; try reflexivity;
  try discriminate.

Lemma lower_of_letter (c : ascii) :
  is_letter c = true -> in_range 97 122 (lower_char c) = true.
Proof. each_char c. Qed.

Lemma letter_of_lower (x : ascii) :
  in_range 97 122 (lower_char x) = true -> is_letter x = true.
Proof. each_char x. Qed.

Lemma letter_is_word (x : ascii) : is_letter x = true -> is_word x = true.
Proof. each_char x. Qed.

Lemma ci_eqb_letter (x c : ascii) :
  is_letter c = true -> ci_eqb x c = true -> is_letter x = true.
Proof.
  intros Hc H. apply ascii_eqb_eq in H. apply letter_of_lower.
  rewrite H. apply lower_of_letter. exact Hc.
Qed.

Lemma ci_eqb_word (x c : ascii) :
  is_letter c = true -> is_word x = false -> ci_eqb x c = false.
Proof.
  intros Hc Hx. destruct (ci_eqb x c) eqn:E; [|reflexivity].
  apply (ci_eqb_letter _ _ Hc), letter_is_word in E. congruence.
Qed.

Section RunWord.
Context {A : Type}.

Lemma run_word_i (w : str) :
  forall p c (k : @cont A),
    run (word_i w) p c k
    = if ci_prefix w (rest p) then k (advance p (length w)) c else None.
Proof.
  induction w as [|a w IH]; intros p c k; [reflexivity|].
  assert (Hone : forall (k' : @cont A),
             run (chr_i a) p c k'
             = match rest p with
               | x :: t => if ci_eqb x a then k' (mkpos (Some x) t) c else None
               | [] => None
               end) by reflexivity.
  destruct w as [|b w].
  - cbn [word_i ci_prefix length advance]. rewrite Hone.
    destruct (rest p) as [|x t]; [reflexivity|].
    destruct (ci_eqb x a); reflexivity.
  - change (word_i (a :: b :: w)) with (Seq (chr_i a) (word_i (b :: w))).
    cbn [run]. rewrite Hone. cbn [ci_prefix length advance].
    destruct (rest p) as [|x t]; [reflexivity|].
    destruct (ci_eqb x a); [|reflexivity]. rewrite IH. reflexivity.
Qed.

Lemma run_alts (ws : list str) (p : pos) (c : caps) (k : @cont A) :
  run (alts (map word_i ws)) p c k = try_words ws p c k.
Proof.
  induction ws as [|w ws IH].
  - cbn. destruct (rest p); reflexivity.
  - destruct ws as [|w' ws].
    + cbn. destruct (run (word_i w) p c k); reflexivity.
    + change (alts (map word_i (w :: w' :: ws)))
        with (Alt (word_i w) (alts (map word_i (w' :: ws)))).
      cbn [run]. rewrite IH. reflexivity.
Qed.
End RunWord.

Lemma exec_keyword (keywords : list str) (p : pos) :
  exec (keyword_regex_of keywords) p
  = if boundary p
    then match find (kw_test p) keywords with
         | Some k =>
             Some (advance p (length k),
                   [(1, between p (advance p (length k)))])
         | None => None
         end
    else None.
Proof.
  unfold exec, keyword_regex_of. cbn [seqs run].
  destruct (boundary p); [|reflexivity].
  rewrite run_alts. induction keywords as [|k ks IH]; [reflexivity|].
  cbn [try_words fold_right find]. fold (try_words ks p []
    (fun p' c' =>
       if boundary p' then accept p' ((1, between p p') :: c') else None)).
  rewrite run_word_i. unfold kw_test at 1.
  destruct (ci_prefix k (rest p)); cbn [andb orelse]; [|exact IH].
  destruct (boundary (advance p (length k))); cbn [orelse]; [reflexivity|].
  exact IH.
Qed.

Lemma ci_tail (k : str) :
  forall x w r,
    is_word x = true -> forallb is_letter k = true ->
    forallb is_word w = true -> run_end r = true ->
    ci_prefix k (w ++ r)
    && boundary (advance (mkpos (Some x) (w ++ r)) (length k))
    = ci_equal k w.
Proof.
  induction k as [|c k IH]; intros x w r Hx Hk Hw Hr.
  - cbn [ci_prefix length advance andb ci_equal].
    unfold boundary, word_before, word_after. cbn [prev rest]. rewrite Hx.
    destruct w as [|y w]; cbn [app].
    + destruct r as [|z r]; [reflexivity|]. simpl in Hr.
      apply negb_true_iff in Hr. rewrite Hr. reflexivity.
    + simpl in Hw. apply andb_prop in Hw as [-> _]. reflexivity.
  - simpl in Hk. apply andb_prop in Hk as [Hc Hk].
    destruct w as [|y w]; cbn [app].
    + cbn [ci_equal]. destruct r as [|z r]; [reflexivity|].
      simpl in Hr. apply negb_true_iff in Hr.
      cbn [ci_prefix]. rewrite (ci_eqb_word z c Hc Hr). reflexivity.
    + simpl in Hw. apply andb_prop in Hw as [Hy Hw].
      cbn [ci_prefix ci_equal length advance rest].
      rewrite <- andb_assoc, (IH y w r Hy Hk Hw Hr). reflexivity.
Qed.

Lemma good_keyword_inv (k : str) :
  good_keyword k = true ->
  exists c k', k = c :: k' /\ is_letter c = true /\ forallb is_letter k' = true.
Proof.
  unfold good_keyword. destruct k as [|c k']; [discriminate|].
  simpl. intros H. apply andb_prop in H as [Hc Hk]. eauto.
Qed.

(** Where no word starts, no keyword passes the test. *)
Lemma kw_test_run_end (p : pos) (k : str) :
  run_end (rest p) = true -> good_keyword k = true -> kw_test p k = false.
Proof.
  intros Hr Hk. apply good_keyword_inv in Hk as (c & k' & -> & Hc & _).
  unfold kw_test. destruct (rest p) as [|z r]; [reflexivity|].
  simpl in Hr. apply negb_true_iff in Hr.
  cbn [ci_prefix]. rewrite (ci_eqb_word z c Hc Hr). reflexivity.
Qed.

(** At the start of a run of word characters the test is passed by the
    keywords equal to the whole run. *)
Lemma kw_test_word_start (pv : option ascii) (w r k : str) :
  forallb is_word w = true -> run_end r = true -> good_keyword k = true ->
  kw_test (mkpos pv (w ++ r)) k = ci_equal k w.
Proof.
  intros Hw Hr Hk. destruct w as [|x w].
  - rewrite kw_test_run_end by assumption.
    apply good_keyword_inv in Hk as (c & k' & -> & _). reflexivity.
  - apply good_keyword_inv in Hk as (c & k' & -> & Hc & Hk).
    simpl in Hw. apply andb_prop in Hw as [Hx Hw].
    unfold kw_test. cbn [rest app ci_prefix length advance ci_equal].
    rewrite <- andb_assoc, (ci_tail k' x w r Hx Hk Hw Hr). reflexivity.
Qed.

Lemma find_ext_in {B} (f g : B -> bool) (l : list B) :
  (forall b, In b l -> f b = g b) -> find f l = find g l.
Proof.
  induction l as [|b l IH]; intros H; [reflexivity|]. simpl.
  rewrite (H b) by (left; reflexivity).
  destruct (g b); [reflexivity|]. apply IH. intros b' Hb. apply H. right. exact Hb.
Qed.

Lemma ci_equal_length (k : str) :
  forall w, ci_equal k w = true -> length k = length w.
Proof.
  induction k as [|c k IH]; intros [|x w] H; try discriminate; [reflexivity|].
  simpl in H. apply andb_prop in H as [_ H]. simpl. f_equal. auto.
Qed.

Lemma advance_rest (n : nat) :
  forall p, n <= length (rest p) -> rest (advance p n) = skipn n (rest p).
Proof.
  induction n as [|n IH]; intros p Hn; [reflexivity|].
  cbn [advance]. destruct (rest p) as [|x t] eqn:E; [simpl in Hn; lia|].
  rewrite IH by (simpl in *; lia). reflexivity.
Qed.

Lemma advance_prev (w : str) :
  forall pv r, prev (advance (mkpos pv (w ++ r)) (length w)) = last_prev pv w.
Proof.
  induction w as [|x w IH]; intros pv r; [reflexivity|].
  cbn [length advance rest app last_prev]. apply IH.
Qed.

Lemma between_advance (pv : option ascii) (w r : str) :
  between (mkpos pv (w ++ r)) (advance (mkpos pv (w ++ r)) (length w)) = w.
Proof.
  unfold between. rewrite advance_rest by (cbn [rest]; rewrite length_app; lia).
  cbn [rest]. rewrite skipn_app, skipn_all, Nat.sub_diag. cbn [skipn app].
  rewrite length_app.
  replace (length w + length r - length r) with (length w) by lia.
  rewrite firstn_app, firstn_all, Nat.sub_diag. cbn [firstn].
  apply app_nil_r.
Qed.

Lemma is_keyword_find (keywords : list str) (w : str) :
  is_keyword keywords w
  = match find (fun k => ci_equal k w) keywords with
    | Some _ => true
    | None => false
    end.
Proof.
  unfold is_keyword. induction keywords as [|k ks IH]; [reflexivity|].
  simpl. destruct (ci_equal k w); [reflexivity|exact IH].
Qed.

Lemma all_good_in (keywords : list str) (k : str) :
  all_good keywords = true -> In k keywords -> good_keyword k = true.
Proof. intros H. apply (proj1 (forallb_forall _ _) H). Qed.

(** A match of the keyword pattern at the start of a run of word
    characters covers the whole run, and there is one exactly when the run
    is a keyword. *)
Lemma match_at_word_start
  (keywords : list str) (start : nat) (pv : option ascii) (w r : str) :
  all_good keywords = true ->
  word_before (mkpos pv (w ++ r)) = false ->
  w <> [] -> forallb is_word w = true -> run_end r = true ->
  match_at (keyword_regex_of keywords) start (mkpos pv (w ++ r))
  = if is_keyword keywords w then Some (mkmatch start w [(1, w)]) else None.
Proof.
  intros Hg Hb Hne Hw Hr. unfold match_at. rewrite exec_keyword.
  assert (Hbd : boundary (mkpos pv (w ++ r)) = true).
  { unfold boundary. rewrite Hb. unfold word_after. cbn [rest].
    destruct w as [|x w]; [congruence|]. cbn [app]. simpl in Hw.
    apply andb_prop in Hw as [-> _]. reflexivity. }
  rewrite Hbd, is_keyword_find.
  rewrite (find_ext_in (kw_test (mkpos pv (w ++ r))) (fun k => ci_equal k w))
    by (intros k Hk; apply kw_test_word_start; eauto using all_good_in).
  destruct (find (fun k => ci_equal k w) keywords) as [k|] eqn:E; [|reflexivity].
  apply find_some in E as [_ E]. apply ci_equal_length in E. rewrite E.
  rewrite between_advance. reflexivity.
Qed.

Lemma match_at_inside_word
  (keywords : list str) (start : nat) (p : pos) :
  word_before p = true -> word_after p = true ->
  match_at (keyword_regex_of keywords) start p = None.
Proof.
  intros Hb Ha. unfold match_at. rewrite exec_keyword.
  unfold boundary. rewrite Hb, Ha. reflexivity.
Qed.

Lemma match_at_run_end (keywords : list str) (start : nat) (p : pos) :
  all_good keywords = true -> run_end (rest p) = true ->
  match_at (keyword_regex_of keywords) start p = None.
Proof.
  intros Hg Hr. unfold match_at. rewrite exec_keyword.
  destruct (boundary p); [|reflexivity].
  rewrite (find_ext_in (kw_test p) (fun _ => false))
    by (intros k Hk; apply kw_test_run_end; eauto using all_good_in).
  induction keywords as [|k ks IH]; [reflexivity|]. simpl. apply IH.
  simpl in Hg. apply andb_prop in Hg as [_ Hg]. exact Hg.
Qed.

Section Normalizer.
Variable keywords : list str.
Hypothesis keywords_good : all_good keywords = true.

Let R : re := keyword_regex_of keywords.
Let U : mtch -> str := fun m => upper (m_text m).

Lemma sub_skip_word (w : str) :
  forall r start pv,
    sub_from R U start pv (length w) (w ++ r)
    = sub_from R U (start + length w) (last_prev pv w) 0 r.
Proof.
  induction w as [|x w IH]; intros r start pv.
  - cbn [length app last_prev]. rewrite Nat.add_0_r. reflexivity.
  - cbn [length app last_prev sub_from]. rewrite IH.
    replace (start + S (length w)) with (S start + length w) by lia.
    reflexivity.
Qed.

Lemma sub_inside_word (w : str) :
  forall r start x,
    is_word x = true -> forallb is_word w = true ->
    sub_from R U start (Some x) 0 (w ++ r)
    = w ++ sub_from R U (start + length w) (last_prev (Some x) w) 0 r.
Proof.
  induction w as [|y w IH]; intros r start x Hx Hw.
  - cbn [length app last_prev]. rewrite Nat.add_0_r. reflexivity.
  - simpl in Hw. apply andb_prop in Hw as [Hy Hw].
    cbn [length app last_prev sub_from]. unfold R at 1.
    rewrite match_at_inside_word
      by (unfold word_before, word_after; cbn [prev rest]; assumption).
    rewrite (IH r (S start) y Hy Hw).
    replace (start + S (length w)) with (S start + length w) by lia.
    reflexivity.
Qed.

Lemma sub_run_end (r : str) (start : nat) (pv : option ascii) :
  run_end r = true ->
  sub_from R U start pv 0 r
  = match r with
    | [] => []
    | z :: r' => z :: sub_from R U (S start) (Some z) 0 r'
    end.
Proof.
  intros Hr. destruct r as [|z r']; cbn [sub_from]; unfold R at 1;
    rewrite match_at_run_end by assumption; reflexivity.
Qed.

Lemma flush_nil : flush keywords [] = [].
Proof. unfold flush. destruct (is_keyword keywords []); reflexivity. Qed.

Lemma words_spec_run (w : str) :
  forall acc r,
    forallb is_word w = true -> run_end r = true ->
    words_spec keywords acc (w ++ r)
    = flush keywords (acc ++ w)
      ++ match r with
         | [] => []
         | z :: r' => z :: words_spec keywords [] r'
         end.
Proof.
  induction w as [|x w IH]; intros acc r Hw Hr.
  - cbn [app]. rewrite app_nil_r. destruct r as [|z r']; cbn [words_spec].
    + rewrite app_nil_r. reflexivity.
    + simpl in Hr. apply negb_true_iff in Hr. rewrite Hr. reflexivity.
  - simpl in Hw. apply andb_prop in Hw as [Hx Hw].
    cbn [app words_spec]. rewrite Hx, IH by assumption.
    rewrite <- app_assoc. reflexivity.
Qed.

Lemma span_word (s : str) :
  forallb is_word (takewhile is_word s) = true
  /\ run_end (dropwhile is_word s) = true.
Proof.
  split; [apply takewhile_all|].
  induction s as [|x t IH]; [reflexivity|]. cbn [dropwhile].
  destruct (is_word x) eqn:E; [exact IH|]. simpl. rewrite E. reflexivity.
Qed.

Lemma sub_keywords_spec (n : nat) :
  forall s start pv,
    length s <= n ->
    word_before (mkpos pv s) = false ->
    sub_from R U start pv 0 s = words_spec keywords [] s.
Proof.
  induction n as [|n IH]; intros s start pv Hn Hpv.
  - destruct s; [|simpl in Hn; lia].
    rewrite sub_run_end by reflexivity. symmetry. apply flush_nil.
  - destruct s as [|x t].
    { rewrite sub_run_end by reflexivity. symmetry. apply flush_nil. }
    simpl in Hn. destruct (is_word x) eqn:Hx.
    + destruct (span_word t) as [Hw Hr].
      rewrite <- (takewhile_dropwhile is_word t).
      set (w := takewhile is_word t) in *.
      set (r := dropwhile is_word t) in *.
      assert (Hlen : length w + length r = length t)
        by (rewrite <- length_app; unfold w, r;
            rewrite takewhile_dropwhile; reflexivity).
      assert (Hxw : forallb is_word (x :: w) = true)
        by (simpl; rewrite Hx; exact Hw).
      change (x :: w ++ r) with ((x :: w) ++ r).
      rewrite (words_spec_run (x :: w) [] r Hxw Hr). cbn [app].
      assert (Htail : forall st' pv',
                 sub_from R U st' pv' 0 r
                 = match r with
                   | [] => []
                   | z :: r' => z :: words_spec keywords [] r'
                   end).
      { intros st' pv'. rewrite sub_run_end by exact Hr.
        destruct r as [|z r']; [reflexivity|]. f_equal.
        simpl in Hr. apply negb_true_iff in Hr.
        apply IH; [simpl in Hlen; lia|].
        unfold word_before. cbn [prev]. exact Hr. }
      cbn [sub_from]. unfold R at 1.
      change (x :: w ++ r) with ((x :: w) ++ r).
      rewrite match_at_word_start; try assumption; try discriminate.
      unfold flush. destruct (is_keyword keywords (x :: w)).
      * unfold U at 1. cbn [m_text length].
        rewrite sub_skip_word, Htail. reflexivity.
      * rewrite (sub_inside_word w r (S start) x Hx Hw), Htail.
        reflexivity.
    + rewrite (sub_run_end (x :: t)) by (simpl; rewrite Hx; reflexivity).
      cbn [words_spec]. rewrite Hx, flush_nil. cbn [app]. f_equal.
      apply IH; [lia|]. unfold word_before. cbn [prev]. exact Hx.
Qed.

Lemma uppercase_keywords_spec (line : str) :
  _uppercase_keywords_with keywords line = normalize_spec keywords line.
Proof.
  unfold _uppercase_keywords_with, sub, normalize_spec.
  apply (sub_keywords_spec (length line)); [lia|reflexivity].
Qed.

End Normalizer.

Lemma sql_keywords_good : all_good sql_keywords = true.
Proof. vm_compute. reflexivity. Qed.

Section Spec.
Variable keywords : list str.

Lemma flush_length (w : str) : length (flush keywords w) = length w.
Proof.
  unfold flush, upper. destruct (is_keyword keywords w);
    [apply length_map|reflexivity].
Qed.

Lemma words_spec_length (s : str) :
  forall acc, length (words_spec keywords acc s) = length acc + length s.
Proof.
  induction s as [|x t IH]; intros acc; cbn [words_spec].
  - rewrite flush_length. simpl. lia.
  - destruct (is_word x).
    + rewrite IH, length_app. simpl. lia.
    + rewrite length_app, flush_length. simpl. rewrite IH. simpl. lia.
Qed.

Lemma words_spec_nonword (pre : str) (z : ascii) (post : str) :
  is_word z = false ->
  forall acc,
    words_spec keywords acc (pre ++ z :: post)
    = words_spec keywords acc pre ++ z :: words_spec keywords [] post.
Proof.
  intros Hz. induction pre as [|x pre IH]; intros acc; cbn [app words_spec].
  - rewrite Hz. reflexivity.
  - destruct (is_word x); [apply IH|].
    rewrite IH, <- app_assoc. reflexivity.
Qed.

Lemma words_spec_word (w post : str) :
  forallb is_word w = true -> run_end post = true ->
  words_spec keywords [] (w ++ post)
  = flush keywords w ++ words_spec keywords [] post.
Proof.
  intros Hw Hr. rewrite words_spec_run by assumption. cbn [app]. f_equal.
  destruct post as [|z r]; cbn [words_spec].
  - symmetry. apply flush_nil.
  - simpl in Hr. apply negb_true_iff in Hr. rewrite Hr, flush_nil. reflexivity.
Qed.

Lemma ends_word_inv (pre : str) :
  ends_word pre = false ->
  pre = [] \/ exists pre' z, pre = pre' ++ [z] /\ is_word z = false.
Proof.
  unfold ends_word. intros H.
  destruct (rev pre) as [|z l] eqn:E.
  - left. apply (f_equal (@rev ascii)) in E. rewrite rev_involutive in E.
    exact E.
  - right. exists (rev l), z. split; [|exact H].
    apply (f_equal (@rev ascii)) in E. rewrite rev_involutive in E. exact E.
Qed.

Lemma normalize_spec_word (pre w post : str) :
  ends_word pre = false -> forallb is_word w = true -> run_end post = true ->
  normalize_spec keywords (pre ++ w ++ post)
  = normalize_spec keywords pre ++ flush keywords w
    ++ normalize_spec keywords post.
Proof.
  intros Hpre Hw Hr. unfold normalize_spec.
  destruct (ends_word_inv pre Hpre) as [->|(pre' & z & -> & Hz)].
  - cbn [app words_spec]. rewrite flush_nil. apply words_spec_word; assumption.
  - rewrite <- app_assoc. cbn [app].
    rewrite !words_spec_nonword by exact Hz.
    rewrite words_spec_word by assumption.
    cbn [words_spec]. rewrite flush_nil, <- app_assoc. reflexivity.
Qed.

Lemma is_keyword_letters (w : str) :
  all_good keywords = true -> is_keyword keywords w = true ->
  forallb is_letter w = true.
Proof.
  intros Hg H. unfold is_keyword in H. apply existsb_exists in H as (k & Hk & E).
  pose proof (all_good_in _ _ Hg Hk) as Hgk. unfold good_keyword in Hgk.
  apply andb_prop in Hgk as [_ Hl]. clear Hk Hg.
  revert w E. induction k as [|c k IH]; intros [|x w] E; try discriminate;
    [reflexivity|].
  simpl in Hl, E. apply andb_prop in Hl as [Hc Hl].
  apply andb_prop in E as [Ex E]. simpl.
  rewrite (ci_eqb_letter x c Hc Ex). apply IH; assumption.
Qed.

End Spec.

Lemma is_keyword_perm (ks ks' : list str) (w : str) :
  Permutation ks ks' -> is_keyword ks w = is_keyword ks' w.
Proof.
  intros H. unfold is_keyword.
  induction H as [|k l l' _ IH|a b l|l1 l2 l3 _ IH1 _ IH2]; simpl.
  - reflexivity.
  - rewrite IH. reflexivity.
  - destruct (ci_equal a w), (ci_equal b w); reflexivity.
  - congruence.
Qed.

Lemma words_spec_perm (ks ks' : list str) (s : str) :
  Permutation ks ks' ->
  forall acc, words_spec ks acc s = words_spec ks' acc s.
Proof.
  intros H. induction s as [|x t IH]; intros acc; cbn [words_spec];
    unfold flush; rewrite (is_keyword_perm ks ks' _ H); [reflexivity|].
  rewrite IH, (IH []). reflexivity.
Qed.

Lemma all_good_perm (ks ks' : list str) :
  Permutation ks ks' -> all_good ks' = true -> all_good ks = true.
Proof.
  intros H Hg. apply forallb_forall. intros k Hk.
  apply (all_good_in ks' k Hg). apply (Permutation_in k H Hk).
Qed.

(** The order in which the set of keywords is joined into the pattern has
    no effect on the outcome. *)
Lemma keyword_order_irrelevant (keywords : list str) (line : str) :
  Permutation keywords sql_keywords ->
  _uppercase_keywords_with keywords line = _uppercase_keywords line.
Proof.
  intros H. unfold _uppercase_keywords.
  rewrite !uppercase_keywords_spec
    by (try apply sql_keywords_good;
        apply (all_good_perm _ _ H), sql_keywords_good).
  apply words_spec_perm. exact H.
Qed.

(** What the normalizer puts in upper case is made of ASCII letters. *)
Lemma keyword_match_letters (w : str) :
  is_keyword sql_keywords w = true -> forallb is_letter w = true.
Proof. apply is_keyword_letters, sql_keywords_good. Qed.

(** C8: the keyword normalizer puts in upper case the whole words that are
    keywords in some case and nothing else: it is the word-by-word
    normalizer of the specification; the line keeps its length, a character
    that is not a word character stays and separates the text, a maximal
    run of word characters is changed as a whole, to upper case, exactly
    when it is a keyword.  [order] inside [orderid] is left alone. *)
Theorem keyword_normalizer (line : str) :
  _uppercase_keywords line = normalize_spec sql_keywords line
  /\ length (_uppercase_keywords line) = length line
  /\ (forall pre z post,
         line = pre ++ z :: post -> is_word z = false ->
         _uppercase_keywords line
         = _uppercase_keywords pre ++ z :: _uppercase_keywords post)
  /\ (forall pre w post,
         line = pre ++ w ++ post ->
         ends_word pre = false -> forallb is_word w = true ->
         run_end post = true ->
         _uppercase_keywords line
         = _uppercase_keywords pre
           ++ (if is_keyword sql_keywords w then upper w else w)
           ++ _uppercase_keywords post)
  /\ (forall keywords,
         Permutation keywords sql_keywords ->
         _uppercase_keywords_with keywords line = _uppercase_keywords line)
  /\ _uppercase_keywords (lit "orderid INT") = lit "orderid INT"
  /\ _uppercase_keywords (lit "orderid int") = lit "orderid INT".
Proof.
  assert (E : forall l, _uppercase_keywords l = normalize_spec sql_keywords l)
    by (intros l; apply uppercase_keywords_spec, sql_keywords_good).
  split; [apply E|]. split; [|split; [|split; [|split; [|split]]]].
  - rewrite E. unfold normalize_spec. rewrite words_spec_length. reflexivity.
  - intros pre z post -> Hz. rewrite !E. unfold normalize_spec.
    apply words_spec_nonword. exact Hz.
  - intros pre w post -> Hpre Hw Hr. rewrite !E.
    apply normalize_spec_word; assumption.
  - intros keywords H. apply keyword_order_irrelevant. exact H.
  - vm_compute. reflexivity.
  - vm_compute. reflexivity.
Qed.

(** ** Case changes keep the shape of a line

    The tests on the parentheses look at [stripped_line], which the loop
    body takes from the line before the keywords are put in upper case.
    The first stages change letters into letters only, so the tests come
    out the same on the processed line. *)

Lemma letter_not_space (x : ascii) : is_letter x = true -> isspace x = false.
Proof. each_char x. Qed.

Lemma upper_letter (x : ascii) :
  is_letter x = true -> is_letter (upper_char x) = true.
Proof. each_char x. Qed.

Lemma same_char_refl (x : ascii) : same_char x x.
Proof. left. reflexivity. Qed.

Lemma same_char_trans (x y z : ascii) :
  same_char x y -> same_char y z -> same_char x z.
Proof.
  intros [->|[Hx Hy]] [->|[Hy' Hz]]; unfold same_char; auto.
Qed.

Lemma same_char_space (x y : ascii) : same_char x y -> isspace x = isspace y.
Proof.
  intros [->|[Hx Hy]]; [reflexivity|].
  rewrite (letter_not_space x Hx), (letter_not_space y Hy). reflexivity.
Qed.

Lemma same_char_eqb (x y c : ascii) :
  same_char x y -> is_letter c = false -> ascii_eqb x c = ascii_eqb y c.
Proof.
  intros [->|[Hx Hy]] Hc; [reflexivity|].
  assert (N : forall z, is_letter z = true -> ascii_eqb z c = false)
    by (intros z Hz; apply ascii_eqb_neq; intros ->; congruence).
  rewrite (N x Hx), (N y Hy). reflexivity.
Qed.

Lemma same_shape_refl (a : str) : same_shape a a.
Proof. induction a; constructor; [apply same_char_refl|assumption]. Qed.

Lemma same_shape_trans (a b : str) :
  same_shape a b -> forall c, same_shape b c -> same_shape a c.
Proof.
  intros H. induction H as [|x y a b Hxy _ IH]; intros c Hc.
  - inversion Hc. constructor.
  - inversion Hc as [|y' z b' c' Hyz Hbc]; subst.
    constructor; [exact (same_char_trans x y z Hxy Hyz)|apply IH; exact Hbc].
Qed.

Lemma same_shape_app (a b a' b' : str) :
  same_shape a b -> same_shape a' b' -> same_shape (a ++ a') (b ++ b').
Proof. apply Forall2_app. Qed.

Lemma same_shape_rev (a b : str) :
  same_shape a b -> same_shape (rev a) (rev b).
Proof.
  intros H. induction H as [|x y a b Hxy _ IH]; [constructor|].
  simpl. apply same_shape_app; [exact IH|]. constructor; [exact Hxy|constructor].
Qed.

Lemma same_shape_dropwhile (a b : str) :
  same_shape a b ->
  same_shape (dropwhile isspace a) (dropwhile isspace b).
Proof.
  intros H. induction H as [|x y a b Hxy Hab IH]; [constructor|].
  simpl. rewrite <- (same_char_space x y Hxy).
  destruct (isspace x); [exact IH|]. constructor; assumption.
Qed.

Lemma same_shape_rstrip (a b : str) :
  same_shape a b -> same_shape (rstrip a) (rstrip b).
Proof.
  intros H. apply same_shape_rev, same_shape_dropwhile, same_shape_rev, H.
Qed.

Lemma same_shape_strip (a b : str) :
  same_shape a b -> same_shape (strip a) (strip b).
Proof. intros H. apply same_shape_dropwhile, same_shape_rstrip, H. Qed.

Lemma same_shape_nonempty (a b : str) :
  same_shape a b -> nonempty a = nonempty b.
Proof. intros H. destruct H; reflexivity. Qed.

Lemma same_shape_startswith (a b : str) (c : ascii) :
  same_shape a b -> is_letter c = false ->
  startswith a [c] = startswith b [c].
Proof.
  intros H Hc. destruct H as [|x y a b Hxy Hab]; [reflexivity|]. simpl.
  rewrite (same_char_eqb x y c Hxy Hc), !startswith_nil. reflexivity.
Qed.

Lemma same_shape_endswith (a b : str) (c : ascii) :
  same_shape a b -> is_letter c = false -> endswith a [c] = endswith b [c].
Proof.
  intros H Hc. unfold endswith.
  apply same_shape_startswith; [apply same_shape_rev; exact H|exact Hc].
Qed.

Lemma flush_shape (keywords : list str) (w : str) :
  all_good keywords = true -> same_shape w (flush keywords w).
Proof.
  intros Hg. unfold flush.
  destruct (is_keyword keywords w) eqn:E; [|apply same_shape_refl].
  apply (is_keyword_letters keywords w Hg) in E.
  induction w as [|x w IH]; [constructor|].
  simpl in E. apply andb_prop in E as [Hx E].
  constructor; [|apply IH; exact E].
  right. split; [exact Hx|apply upper_letter; exact Hx].
Qed.

Lemma words_spec_shape (keywords : list str) (s : str) :
  all_good keywords = true ->
  forall acc, same_shape (acc ++ s) (words_spec keywords acc s).
Proof.
  intros Hg. induction s as [|x t IH]; intros acc; cbn [words_spec].
  - rewrite app_nil_r. apply flush_shape. exact Hg.
  - destruct (is_word x).
    + replace (acc ++ x :: t) with ((acc ++ [x]) ++ t)
        by (rewrite <- app_assoc; reflexivity).
      apply IH.
    + apply same_shape_app; [apply flush_shape; exact Hg|].
      constructor; [apply same_char_refl|apply (IH [])].
Qed.

Lemma uppercase_shape (line : str) :
  same_shape line (_uppercase_keywords line).
Proof.
  unfold _uppercase_keywords.
  rewrite uppercase_keywords_spec by apply sql_keywords_good.
  apply (words_spec_shape sql_keywords line sql_keywords_good []).
Qed.

Lemma placeholder_shape : same_shape placeholder_upper placeholder_lower.
Proof.
  repeat constructor;
    solve [left; reflexivity | right; split; reflexivity].
Qed.

Lemma replace_shape (n : nat) :
  forall s,
    length s <= n ->
    same_shape s (replace placeholder_upper placeholder_lower s).
Proof.
  induction n as [|n IH]; intros s Hn.
  - destruct s; [constructor|simpl in Hn; lia].
  - destruct (replace_cases s) as [[s' ->]|[->|(x & t & -> & Hx)]].
    + rewrite replace_hit. apply same_shape_app; [apply placeholder_shape|].
      apply IH. rewrite length_app in Hn.
      change (length placeholder_upper) with 15 in Hn. lia.
    + constructor.
    + rewrite replace_miss by exact Hx.
      constructor; [apply same_char_refl|]. apply IH. simpl in Hn. lia.
Qed.

Lemma normalized_shape (line : str) : same_shape line (normalized line).
Proof.
  unfold normalized.
  apply (same_shape_trans _ _ (uppercase_shape line)).
  apply (replace_shape (length (_uppercase_keywords line))). lia.
Qed.

(** [stripped_line] and the stripped processed line have the same shape. *)
Lemma prepare_stripped (line0 line stripped_line : str) :
  prepare line0 = Ok (line, stripped_line) ->
  same_shape stripped_line (strip line).
Proof.
  unfold prepare.
  destruct (search create_statement_regex (normalized line0)).
  - destruct (_process_create_statement (normalized line0)) as [l|e];
      cbn [bind]; [|discriminate].
    intros H. injection H as <- <-. apply same_shape_refl.
  - intros H. injection H as <- <-.
    apply same_shape_strip, normalized_shape.
Qed.

(** The three tests of the loop body, read on the processed line. *)
Lemma stripped_tests (line0 line stripped_line : str) :
  prepare line0 = Ok (line, stripped_line) ->
  nonempty stripped_line = nonempty (strip line)
  /\ startswith stripped_line (lit ")") = startswith (strip line) (lit ")")
  /\ endswith (rstrip stripped_line) (lit "(")
     = endswith (strip line) (lit "(").
Proof.
  intros H. apply prepare_stripped in H. split; [|split].
  - apply same_shape_nonempty. exact H.
  - apply (same_shape_startswith _ _ ")"%char H). reflexivity.
  - rewrite <- (rstrip_strip line).
    apply (same_shape_endswith _ _ "("%char); [|reflexivity].
    apply same_shape_rstrip. exact H.
Qed.

(** ** Inside a column list *)

Lemma restructure_inside (st : state) (line stripped_line : str) :
  inside_columns st = true ->
  restructure st line stripped_line
  = if startswith stripped_line (lit ")")
    then (mkstate false (first_column st), [line])
    else if nonempty stripped_line
         then column_line st line
         else (st, [line]).
Proof.
  intros Hin. unfold restructure, column_line. rewrite Hin. cbn [negb andb].
  destruct (startswith stripped_line (lit ")")); [reflexivity|].
  destruct (nonempty stripped_line); [|reflexivity].
  rewrite sub_trailing_comma, indent_of_lstrip.
  destruct (first_column st); reflexivity.
Qed.

(** One turn of the loop inside a column list, by the processed line. *)
Lemma step_inside (st : state) (line0 line : str) :
  inside_columns st = true -> processed line0 line ->
  step st line0
  = Ok (if startswith (strip line) (lit ")")
        then (mkstate false (first_column st), [line])
        else if nonempty (strip line)
             then column_line st line
             else (st, [line])).
Proof.
  intros Hin [s Hp]. destruct (stripped_tests _ _ _ Hp) as (Hn & Hc & _).
  unfold step. rewrite Hp. cbn [bind fst snd].
  rewrite restructure_inside, Hc, Hn by exact Hin. reflexivity.
Qed.

Lemma endswith_nonempty (s p : str) :
  nonempty p = true -> endswith s p = true -> nonempty s = true.
Proof.
  destruct s as [|x s]; [|reflexivity].
  destruct p as [|y p]; [discriminate|]. intros _. unfold endswith. simpl.
  destruct (rev p ++ [y]) eqn:E; [|discriminate].
  apply app_eq_nil in E as [_ E]. discriminate.
Qed.

(** C2: a line met inside a column list whose stripped text is not empty and
    does not start with a closing parenthesis loses its trailing comma (and
    the white space after it); as first column it is emitted like that and
    the first-column flag is cleared, otherwise it is emitted as its
    indentation, a comma, and its left-stripped text with nothing between
    the comma and the text. *)
Theorem column_line_handling
  (st : state) (line0 line : str)
  (Hline : processed line0 line)
  (Hin : inside_columns st = true)
  (Hne : nonempty (strip line) = true)
  (Hclose : startswith (strip line) (lit ")") = false) :
  let body := drop_trailing_comma line in
  step st line0
  = Ok (if first_column st
        then (mkstate true false, [body])
        else (st, [leading_ws body ++ lit "," ++ lstrip body]))
  /\ leading_ws body ++ lstrip body = body
  /\ (forall text ws,
         forallb isspace ws = true -> line = text ++ lit "," ++ ws ->
         body = text)
  /\ ((forall text ws,
          forallb isspace ws = true -> line <> text ++ lit "," ++ ws) ->
      body = line).
Proof.
  intros body. split; [|split; [apply leading_ws_lstrip|]].
  - rewrite (step_inside st line0 line Hin Hline), Hclose, Hne. reflexivity.
  - apply drop_trailing_comma_spec.
Qed.

Lemma column_line_handling_example :
  step (mkstate true false) (lit "  b int,  ")
  = Ok (mkstate true false, [lit "  ,b INT"]).
Proof.
  apply (column_line_handling (mkstate true false)
           (lit "  b int,  ") (lit "  b INT,  "));
    try (exists (lit "b int,")); vm_compute; reflexivity.
Defined.

Lemma column_line_shape (st : state) (line : str) :
  inside_columns st = true ->
  inside_columns (fst (column_line st line)) = true
  /\ length (snd (column_line st line)) = 1.
Proof.
  intros Hin. unfold column_line. destruct (first_column st); simpl; auto.
Qed.

Lemma step_not_closing (st : state) (line0 : str) :
  inside_columns st = true -> not_closing line0 ->
  exists st' out,
    step st line0 = Ok (st', out)
    /\ inside_columns st' = true /\ length out = 1.
Proof.
  intros Hin (line & Hp & Hc).
  rewrite (step_inside st line0 line Hin Hp), Hc.
  destruct (nonempty (strip line)).
  - destruct (column_line_shape st line Hin) as [H1 H2].
    destruct (column_line st line) as [st' out]. exists st', out. auto.
  - exists st, [line]. auto.
Qed.

Lemma step_closing (st : state) (line0 : str) :
  inside_columns st = true -> closing line0 ->
  exists line,
    step st line0 = Ok (mkstate false (first_column st), [line]).
Proof.
  intros Hin (line & Hp & Hc). exists line.
  rewrite (step_inside st line0 line Hin Hp), Hc. reflexivity.
Qed.

Lemma for_lines_not_closing (mid : list str) :
  forall st,
    inside_columns st = true -> Forall not_closing mid ->
    exists st' out,
      for_lines st mid = Ok (st', out)
      /\ inside_columns st' = true /\ length out = length mid.
Proof.
  induction mid as [|l mid IH]; intros st Hin Hmid.
  - exists st, []. auto.
  - inversion Hmid as [|? ? Hl Hmid']; subst.
    destruct (step_not_closing st l Hin Hl) as (st1 & o1 & H1 & Hin1 & Hlen1).
    destruct (IH st1 Hin1 Hmid') as (st2 & o2 & H2 & Hin2 & Hlen2).
    exists st2, (o1 ++ o2). cbn [for_lines]. rewrite H1. cbn [bind fst snd].
    rewrite H2. cbn [bind fst snd]. rewrite length_app, Hlen1, Hlen2. auto.
Qed.

Lemma for_lines_app (l1 : list str) :
  forall st l2 st1 o1,
    for_lines st l1 = Ok (st1, o1) ->
    for_lines st (l1 ++ l2)
    = r <- for_lines st1 l2 ;; Ok (fst r, o1 ++ snd r).
Proof.
  induction l1 as [|l l1 IH]; intros st l2 st1 o1 H; cbn [for_lines app] in *.
  - injection H as <- <-. destruct (for_lines st l2) as [[s o]|e]; reflexivity.
  - destruct (step st l) as [[s o]|e]; cbn [bind fst snd] in *; [|discriminate].
    destruct (for_lines s l1) as [[s' o']|e] eqn:E; cbn [bind fst snd] in *;
      [|discriminate].
    injection H as <- <-. rewrite (IH s l2 s' o' E).
    destruct (for_lines s' l2) as [[s2 o2]|e]; cbn [bind fst snd];
      [rewrite app_assoc|]; reflexivity.
Qed.

(** C10: inside a column list no block is opened.  A line whose stripped
    text ends with an opening parenthesis is a column line like any other
    (or the closing line, when it starts with a closing parenthesis): one
    output line, no split.  The lines up to the first one that starts with
    a closing parenthesis keep the state inside, whatever parentheses they
    hold, and that line puts it outside. *)
Theorem no_nested_blocks
  (st : state) (mid : list str) (last : str)
  (Hin : inside_columns st = true)
  (Hmid : Forall not_closing mid)
  (Hlast : closing last) :
  (forall line0 line,
      processed line0 line ->
      endswith (strip line) (lit "(") = true ->
      step st line0
      = Ok (if startswith (strip line) (lit ")")
            then (mkstate false (first_column st), [line])
            else column_line st line))
  /\ (exists st1 out1,
         for_lines st mid = Ok (st1, out1)
         /\ inside_columns st1 = true /\ length out1 = length mid)
  /\ (exists st2 out2,
         for_lines st (mid ++ [last]) = Ok (st2, out2)
         /\ inside_columns st2 = false).
Proof.
  split; [|split].
  - intros line0 line Hp He. rewrite (step_inside st line0 line Hin Hp).
    destruct (startswith (strip line) (lit ")")); [reflexivity|].
    apply endswith_nonempty in He; [|reflexivity]. rewrite He. reflexivity.
  - apply for_lines_not_closing; assumption.
  - destruct (for_lines_not_closing mid st Hin Hmid)
      as (st1 & o1 & H1 & Hin1 & _).
    destruct (step_closing st1 last Hin1 Hlast) as [line Hs].
    exists (mkstate false (first_column st1)), (o1 ++ [line]).
    rewrite (for_lines_app mid st [last] st1 o1 H1).
    cbn [for_lines]. rewrite Hs. cbn [bind fst snd]. rewrite app_nil_r. auto.
Qed.

Lemma no_nested_blocks_example :
  exists st2 out2,
    for_lines (mkstate true true)
      (map lit ["a ("; "  b ((,"; ""]%string ++ [lit ") ("])
    = Ok (st2, out2)
    /\ inside_columns st2 = false.
Proof.
  apply (no_nested_blocks (mkstate true true)
           (map lit ["a ("; "  b ((,"; ""]%string) (lit ") (")).
  - reflexivity.
  - repeat constructor.
    + exists (lit "a ("). split; [exists (lit "a (")|]; vm_compute; reflexivity.
    + exists (lit "  b ((,"). split; [exists (lit "b ((,")|];
        vm_compute; reflexivity.
    + exists []. split; [exists []|]; vm_compute; reflexivity.
  - exists (lit ") ("). split; [exists (lit ") (")|]; vm_compute; reflexivity.
Defined.

(** ** The earlier form of the loop

    [move_commas_to_start] treats a column line and a closing line as
    [format] does, as long as the line does not end with an opening
    parenthesis; such a line is passed on as it is, in any state. *)

Lemma move_commas_column_line (st : state) (line : str) :
  inside_columns st = true ->
  endswith (strip line) (lit "(") = false ->
  move_commas_step st line
  = if startswith (strip line) (lit ")")
    then (mkstate false (first_column st), [line])
    else column_line st line.
Proof.
  intros Hin He. unfold move_commas_step, column_line. rewrite He, Hin.
  destruct (startswith (strip line) (lit ")")); [reflexivity|].
  rewrite sub_trailing_comma, indent_of_lstrip.
  destruct (first_column st); reflexivity.
Qed.

Lemma move_commas_open_line (st : state) (line : str) :
  endswith (strip line) (lit "(") = true ->
  move_commas_step st line = (mkstate true (first_column st), [line]).
Proof. intros He. unfold move_commas_step. rewrite He. reflexivity. Qed.

(** ** Formatting a formatted text again *)

Lemma str_eqb_eq (a : str) : forall b, str_eqb a b = true -> a = b.
Proof.
  induction a as [|x a IH]; intros [|y b] H; try discriminate; [reflexivity|].
  simpl in H. apply andb_prop in H as [Hx H].
  apply ascii_eqb_eq in Hx. subst y. f_equal. auto.
Qed.

Lemma stable_prepare (l : str) :
  stable l = true -> prepare l = Ok (l, strip l).
Proof.
  unfold stable. destruct (prepare l) as [[l' s]|e]; [|discriminate].
  intros H. apply andb_prop in H as [H1 H2].
  apply str_eqb_eq in H1, H2. subst. reflexivity.
Qed.

Lemma line_ok_prepare (l : str) :
  line_ok l = true -> prepare l = Ok (l, strip l).
Proof.
  unfold line_ok. intros H. apply andb_prop in H as [_ H].
  apply stable_prepare. exact H.
Qed.

Lemma rfind_from_last (c : ascii) (pre : str) :
  forall i found,
    rfind_from c i found (pre ++ [c]) = (i + Z.of_nat (length pre))%Z.
Proof.
  induction pre as [|x pre IH]; intros i found.
  - simpl. rewrite ascii_eqb_refl. lia.
  - cbn [app rfind_from length]. rewrite IH. lia.
Qed.

Lemma rstrip_spaces (ws : str) : forallb isspace ws = true -> rstrip ws = [].
Proof.
  intros H. unfold rstrip.
  rewrite <- (app_nil_r (rev ws)), dropwhile_app_all
    by (rewrite forallb_rev; exact H).
  reflexivity.
Qed.

Lemma takewhile_app_all (f : ascii -> bool) (l r : str) :
  forallb f l = true -> takewhile f (l ++ r) = l ++ takewhile f r.
Proof.
  induction l as [|x l IH]; simpl; [reflexivity|].
  intros H. apply andb_prop in H as [-> H]. rewrite IH by exact H. reflexivity.
Qed.

(** The parenthesis alone on its line comes out as it is and opens a
    column list. *)
Lemma restructure_open (st : state) (indent : str) :
  inside_columns st = false -> forallb isspace indent = true ->
  restructure st (indent ++ lit "(") (strip (indent ++ lit "("))
  = (mkstate true true, [indent ++ lit "("]).
Proof.
  intros Hout Hws. unfold restructure. rewrite Hout, rstrip_strip.
  assert (Hr : rstrip (indent ++ lit "(") = indent ++ lit "(")
    by (apply (rstrip_app_ws indent [] "("%char); reflexivity).
  assert (Hs : strip (indent ++ lit "(") = lit "(").
  { unfold strip. rewrite Hr. unfold lstrip.
    rewrite dropwhile_app_all by exact Hws. reflexivity. }
  rewrite Hs. cbn [negb andb]. change (endswith (lit "(") (lit "(")) with true.
  cbv iota. rewrite indent_of_lstrip. unfold leading_ws.
  rewrite takewhile_app_all by exact Hws. cbn [lit list_ascii_of_string takewhile].
  change (isspace "("%char) with false. cbv iota. rewrite app_nil_r.
  unfold rfind. change (lit "(") with ["("%char]. rewrite rfind_from_last.
  unfold slice_to. cbn [Z.add].
  destruct (Z.of_nat (length indent) <? 0)%Z eqn:E;
    [apply Z.ltb_lt in E; lia|].
  rewrite Nat2Z.id, firstn_app, firstn_all, Nat.sub_diag. cbn [firstn].
  rewrite app_nil_r, rstrip_spaces by exact Hws. reflexivity.
Qed.

Lemma step_plain (st : state) (l : str) :
  inside_columns st = false -> line_ok l = true ->
  endswith (strip l) (lit "(") = false ->
  step st l = Ok (st, [l]).
Proof.
  intros Hout Hl He. unfold step. rewrite (line_ok_prepare l Hl).
  cbn [bind fst snd]. unfold restructure.
  rewrite Hout, rstrip_strip, He. reflexivity.
Qed.

Lemma step_open (st : state) (indent : str) :
  inside_columns st = false -> forallb isspace indent = true ->
  line_ok (indent ++ lit "(") = true ->
  step st (indent ++ lit "(") = Ok (mkstate true true, [indent ++ lit "("]).
Proof.
  intros Hout Hws Hl. unfold step. rewrite (line_ok_prepare _ Hl).
  cbn [bind fst snd]. rewrite restructure_open by assumption. reflexivity.
Qed.

Lemma startswith_of_empty (s p : str) :
  nonempty s = false -> nonempty p = true -> startswith s p = false.
Proof. destruct s, p; try discriminate; reflexivity. Qed.

Lemma body_ok_cases (l : str) :
  body_ok l = true ->
  line_ok l = true
  /\ startswith (strip l) (lit ")") = false
  /\ nonempty (strip l) = negb (blank l)
  /\ (blank l = false -> drop_trailing_comma l = l).
Proof.
  unfold body_ok, blank, column_ok. intros H.
  apply andb_prop in H as [Hl H]. split; [exact Hl|].
  rewrite negb_involutive. split; [|split; [reflexivity|]].
  - destruct (nonempty (strip l)) eqn:E.
    + cbn [negb orb] in H. apply andb_prop in H as [H _].
      apply andb_prop in H as [_ H]. apply negb_true_iff in H. exact H.
    + apply startswith_of_empty; [exact E|reflexivity].
  - intros Hb. apply negb_false_iff in Hb. rewrite Hb in H.
    cbn [negb orb andb] in H. apply andb_prop in H as [_ H].
    apply negb_true_iff in H. unfold drop_trailing_comma. rewrite H.
    reflexivity.
Qed.

Lemma step_body (f : bool) (l : str) :
  body_ok l = true ->
  step (mkstate true f) l
  = Ok (mkstate true (if blank l then f else false),
        [if blank l then l
         else if f then l else leading_ws l ++ lit "," ++ lstrip l]).
Proof.
  intros H. destruct (body_ok_cases l H) as (Hl & Hc & Hn & Hd).
  unfold step. rewrite (line_ok_prepare l Hl). cbn [bind fst snd].
  rewrite restructure_inside, Hc, Hn by reflexivity.
  destruct (blank l); cbn [negb]; [reflexivity|].
  unfold column_line. rewrite Hd by reflexivity. cbn [first_column].
  destruct f; reflexivity.
Qed.

Lemma for_lines_body (body : list str) :
  forallb body_ok body = true ->
  forall f, exists f',
      for_lines (mkstate true f) body = Ok (mkstate true f', recomma f body).
Proof.
  induction body as [|l ls IH]; intros H f; [exists f; reflexivity|].
  simpl in H. apply andb_prop in H as [Hl Hls].
  cbn [for_lines recomma]. rewrite (step_body f l Hl). cbn [bind fst snd].
  destruct (IH Hls (if blank l then f else false)) as [f' ->].
  exists f'. cbn [bind fst snd app].
  destruct (blank l); [reflexivity|]. destruct f; reflexivity.
Qed.

Lemma step_close (f : bool) (l : str) :
  line_ok l = true -> startswith (strip l) (lit ")") = true ->
  step (mkstate true f) l = Ok (mkstate false f, [l]).
Proof.
  intros Hl Hc. unfold step. rewrite (line_ok_prepare l Hl).
  cbn [bind fst snd]. rewrite restructure_inside, Hc by reflexivity.
  reflexivity.
Qed.

Lemma for_lines_item (it : item) (st : state) :
  item_ok it = true -> inside_columns st = false ->
  exists st',
    for_lines st (lines_of_item it) = Ok (st', lines_of_item (again it))
    /\ inside_columns st' = false.
Proof.
  intros Hok Hout. destruct it as [l|indent body close]; simpl in Hok.
  - apply andb_prop in Hok as [Hl He]. apply negb_true_iff in He.
    exists st. cbn [lines_of_item again for_lines].
    rewrite (step_plain st l Hout Hl He). auto.
  - apply andb_prop in Hok as [Hok Hc]. apply andb_prop in Hok as [Hok Hcl].
    apply andb_prop in Hok as [Hok Hb]. apply andb_prop in Hok as [Hws Ho].
    destruct (for_lines_body body Hb true) as [f Hf].
    exists (mkstate false f). split; [|reflexivity].
    cbn [lines_of_item again for_lines].
    rewrite (step_open st indent Hout Hws Ho). cbn [bind fst snd].
    rewrite (for_lines_app body _ [close] _ _ Hf). cbn [for_lines].
    rewrite (step_close f close Hcl Hc). reflexivity.
Qed.

Lemma for_lines_items (items : list item) :
  well_formed items = true ->
  forall st,
    inside_columns st = false ->
    exists st',
      for_lines st (lines_of items) = Ok (st', lines_of (map again items))
      /\ inside_columns st' = false.
Proof.
  induction items as [|it items IH]; intros H st Hout.
  - exists st. auto.
  - simpl in H. apply andb_prop in H as [Hit Hits].
    destruct (for_lines_item it st Hit Hout) as (st1 & H1 & Hout1).
    destruct (IH Hits st1 Hout1) as (st2 & H2 & Hout2).
    exists st2. split; [|exact Hout2].
    cbn [lines_of flat_map map].
    rewrite (for_lines_app _ _ _ _ _ H1). fold (lines_of items).
    rewrite H2. reflexivity.
Qed.

Lemma split_on_line (l rest : str) :
  one_line l = true -> split_on nl (l ++ nl :: rest) = l :: split_on nl rest.
Proof.
  unfold one_line. induction l as [|x l IH]; intros H; cbn [app split_on].
  - rewrite ascii_eqb_refl. reflexivity.
  - simpl in H. apply negb_true_iff, orb_false_elim in H as [Hx H].
    rewrite Hx, IH by (apply negb_true_iff; exact H). reflexivity.
Qed.

Lemma split_on_one_line (l : str) : one_line l = true -> split_on nl l = [l].
Proof.
  unfold one_line. induction l as [|x l IH]; intros H; cbn [split_on];
    [reflexivity|].
  simpl in H. apply negb_true_iff, orb_false_elim in H as [Hx H].
  rewrite Hx, IH by (apply negb_true_iff; exact H). reflexivity.
Qed.

Lemma split_join (lines : list str) :
  lines <> [] -> forallb one_line lines = true ->
  split_on nl (join [nl] lines) = lines.
Proof.
  induction lines as [|l ls IH]; intros Hne H; [congruence|].
  simpl in H. apply andb_prop in H as [Hl Hls].
  destruct ls as [|l2 ls]; [apply split_on_one_line; exact Hl|].
  change (join [nl] (l :: l2 :: ls)) with (l ++ nl :: join [nl] (l2 :: ls)).
  rewrite split_on_line, IH by (trivial; discriminate). reflexivity.
Qed.

Lemma item_lines_one_line (it : item) :
  item_ok it = true -> forallb one_line (lines_of_item it) = true.
Proof.
  assert (L : forall l, line_ok l = true -> one_line l = true)
    by (intros l H; apply andb_prop in H as [H _]; exact H).
  destruct it as [l|indent body close]; simpl; intros H.
  - apply andb_prop in H as [H _]. rewrite (L l H). reflexivity.
  - apply andb_prop in H as [H _]. apply andb_prop in H as [H Hcl].
    apply andb_prop in H as [H Hb]. apply andb_prop in H as [_ Ho].
    rewrite (L _ Ho), forallb_app. simpl. rewrite (L _ Hcl), andb_true_r.
    apply forallb_forall. intros l Hin.
    apply (proj1 (forallb_forall _ _) Hb) in Hin.
    apply andb_prop in Hin as [Hin _]. apply L. exact Hin.
Qed.

Lemma lines_one_line (items : list item) :
  well_formed items = true -> forallb one_line (lines_of items) = true.
Proof.
  induction items as [|it items IH]; intros H; [reflexivity|].
  simpl in H. apply andb_prop in H as [Hit Hits].
  cbn [lines_of flat_map]. rewrite forallb_app, item_lines_one_line by exact Hit.
  apply IH. exact Hits.
Qed.

(** One more pass over a formatted text: every line comes out as it is,
    but for the later columns of the column lists, which get one more
    comma. *)
Lemma format_formatted_text (items : list item) :
  well_formed items = true ->
  format (render items) = Ok (render (map again items)).
Proof.
  intros H. destruct items as [|it items]; [vm_compute; reflexivity|].
  unfold format, render.
  rewrite split_join; [|destruct it; discriminate|apply lines_one_line; exact H].
  destruct (for_lines_items _ H initial eq_refl) as (st' & -> & _).
  reflexivity.
Qed.

Lemma recomma_no_column (body : list str) (first : bool) :
  columns body = [] -> recomma first body = body.
Proof.
  induction body as [|l ls IH]; intros H; [reflexivity|].
  unfold columns in H. simpl in H. cbn [recomma].
  destruct (blank l); [|discriminate]. rewrite IH by exact H. reflexivity.
Qed.

Lemma recomma_single (body : list str) :
  length (columns body) <= 1 -> recomma true body = body.
Proof.
  induction body as [|l ls IH]; intros H; [reflexivity|].
  unfold columns in H. simpl in H. cbn [recomma].
  destruct (blank l); cbn [negb] in H.
  - rewrite IH by exact H. reflexivity.
  - rewrite recomma_no_column; [reflexivity|].
    simpl in H. apply length_zero_iff_nil. unfold columns. lia.
Qed.

Lemma again_single (items : list item) :
  forallb single_column items = true -> map again items = items.
Proof.
  induction items as [|it items IH]; intros H; [reflexivity|].
  simpl in H. apply andb_prop in H as [Hit Hits].
  cbn [map]. rewrite IH by exact Hits. f_equal.
  destruct it as [l|indent body close]; [reflexivity|].
  simpl in Hit. apply Nat.leb_le in Hit. cbn [again].
  rewrite recomma_single by exact Hit. reflexivity.
Qed.

(** C4, as the specification words it, fails: the text below is an outcome of
    [format] with matched parentheses, its parenthesis alone on a line, no
    comma before the first column, the comma of [format] before the second
    and no trailing comma; formatting it again puts a second comma before
    the second column. *)
Lemma formatted_text_not_fixed :
  let items :=
    [Plain (lit "NAME"); Block [] [lit "  a INT"; lit "  ,b INT"] (lit ")")] in
  well_formed items = true
  /\ forallb commas_placed items = true
  /\ format (text ["NAME ("; "  a INT,"; "  b INT"; ")"]%string)
     = Ok (render items)
  /\ format (render items)
     = Ok (text ["NAME"; "("; "  a INT"; "  ,,b INT"; ")"]%string)
  /\ format (render items) <> Ok (render items).
Proof.
  repeat split; try (vm_compute; reflexivity). vm_compute. discriminate.
Qed.

(** A header that [format] wrote with a one-part identifier does not stay
    either: the placeholder is put before it once more.  This is why the
    lines of a formatted text are asked to be stable. *)
Lemma formatted_header_not_stable :
  format (lit "CREATE TABLE foo (")
  = Ok (text ["CREATE OR REPLACE TABLE {{EDW_DB_NAME}}.foo"; "("]%string)
  /\ format (text ["CREATE OR REPLACE TABLE {{EDW_DB_NAME}}.foo"; "("]%string)
     = Ok (text ["CREATE OR REPLACE TABLE {{EDW_DB_NAME}}.{{edw_db_name}}.foo";
                 "("]%string)
  /\ stable (lit "CREATE OR REPLACE TABLE {{EDW_DB_NAME}}.foo") = false
  /\ stable (lit "CREATE OR REPLACE TABLE {{EDW_DB_NAME}}.s.foo") = true.
Proof. repeat split; vm_compute; reflexivity. Qed.

(** Splitting a text at its line breaks and joining the lines gives the
    text back. *)
Lemma join_split (s : str) : join [nl] (split_on nl s) = s.
Proof.
  induction s as [|x t IH]; [reflexivity|]. cbn [split_on].
  destruct (ascii_eqb x nl) eqn:E.
  - apply ascii_eqb_eq in E. subst x.
    destruct (split_on nl t) as [|p ps] eqn:Es;
      [exfalso; exact (split_on_nonempty nl t Es)|].
    change (join [nl] ([] :: p :: ps)) with (nl :: join [nl] (p :: ps)).
    rewrite IH. reflexivity.
  - destruct (split_on nl t) as [|p ps] eqn:Es;
      [exfalso; exact (split_on_nonempty nl t Es)|].
    rewrite <- IH. destruct ps; reflexivity.
Qed.

(** On a formatted text in which no column list has more than one column
    line, [format] gives the text back. *)
Lemma render_fixed_point (items : list item)
  (Hwf : well_formed items = true)
  (Hone : forallb single_column items = true) :
  format (render items) = Ok (render items).
Proof.
  rewrite format_formatted_text by exact Hwf.
  rewrite again_single by exact Hone. reflexivity.
Qed.

Lemma step_outside_stable (st : state) (l : str) :
  inside_columns st = false -> stable l = true ->
  endswith (strip l) (lit "(") = false ->
  step st l = Ok (st, [l]).
Proof.
  intros Hout Hl He. unfold step. rewrite (stable_prepare l Hl).
  cbn [bind fst snd]. unfold restructure.
  rewrite Hout, rstrip_strip, He. reflexivity.
Qed.

Lemma step_open_stable (st : state) (l : str) :
  inside_columns st = false -> stable l = true ->
  l = leading_ws l ++ lit "(" ->
  step st l = Ok (mkstate true true, [l]).
Proof.
  intros Hout Hl E. unfold step. rewrite (stable_prepare l Hl).
  cbn [bind fst snd]. rewrite E at 1 2 3.
  rewrite restructure_open by (trivial; apply takewhile_all).
  rewrite <- E. reflexivity.
Qed.

Lemma step_close_stable (f : bool) (l : str) :
  stable l = true -> startswith (strip l) (lit ")") = true ->
  step (mkstate true f) l = Ok (mkstate false f, [l]).
Proof.
  intros Hl Hc. unfold step. rewrite (stable_prepare l Hl).
  cbn [bind fst snd]. rewrite restructure_inside, Hc by reflexivity.
  reflexivity.
Qed.

Lemma step_blank_stable (f : bool) (l : str) :
  stable l = true -> blank l = true ->
  step (mkstate true f) l = Ok (mkstate true f, [l]).
Proof.
  intros Hl Hb. unfold blank in Hb. apply negb_true_iff in Hb.
  unfold step. rewrite (stable_prepare l Hl). cbn [bind fst snd].
  rewrite restructure_inside, Hb by reflexivity.
  rewrite startswith_of_empty by (trivial; reflexivity). reflexivity.
Qed.

Lemma step_first_column_stable (l : str) :
  stable l = true -> startswith (strip l) (lit ")") = false ->
  blank l = false -> endswith (rstrip l) (lit ",") = false ->
  step (mkstate true true) l = Ok (mkstate true false, [l]).
Proof.
  intros Hl Hc Hb Hcomma. unfold blank in Hb. apply negb_false_iff in Hb.
  unfold step. rewrite (stable_prepare l Hl). cbn [bind fst snd].
  rewrite restructure_inside, Hc, Hb by reflexivity.
  unfold column_line, drop_trailing_comma. rewrite Hcomma. reflexivity.
Qed.

(** The loop gives back the lines of a self-consistent text, from any
    state that agrees with the place in the text. *)
Lemma for_lines_self_consistent (lines : list str) :
  forall st seen,
    (inside_columns st = true -> first_column st = negb seen) ->
    self_consistent (inside_columns st) seen lines = true ->
    exists st', for_lines st lines = Ok (st', lines).
Proof.
  induction lines as [|l ls IH]; intros [i f] seen Hf H;
    [eexists; reflexivity|].
  cbn [inside_columns first_column] in *. cbn [self_consistent] in H.
  apply andb_prop in H as [Hl H]. cbn [for_lines].
  destruct i.
  - destruct (startswith (strip l) (lit ")")) eqn:Hc.
    + rewrite (step_close_stable f l Hl Hc). cbn [bind fst snd].
      destruct (IH (mkstate false f) false) as [st' ->];
        [discriminate|exact H|].
      eexists. reflexivity.
    + destruct (blank l) eqn:Hb.
      * rewrite (step_blank_stable f l Hl Hb). cbn [bind fst snd].
        destruct (IH (mkstate true f) seen Hf H) as [st' ->].
        eexists. reflexivity.
      * apply andb_prop in H as [H Hls]. apply andb_prop in H as [Hs Hcomma].
        apply negb_true_iff in Hs, Hcomma. subst seen.
        rewrite (Hf eq_refl). cbn [negb].
        rewrite (step_first_column_stable l Hl Hc Hb Hcomma).
        cbn [bind fst snd].
        destruct (IH (mkstate true false) true) as [st' ->];
          [reflexivity|exact Hls|].
        eexists. reflexivity.
  - destruct (endswith (strip l) (lit "(")) eqn:He.
    + apply andb_prop in H as [E Hls]. apply str_eqb_eq in E.
      rewrite (step_open_stable (mkstate false f) l eq_refl Hl E).
      cbn [bind fst snd].
      destruct (IH (mkstate true true) false) as [st' ->];
        [reflexivity|exact Hls|].
      eexists. reflexivity.
    + rewrite (step_outside_stable (mkstate false f) l eq_refl Hl He).
      cbn [bind fst snd].
      destruct (IH (mkstate false f) false) as [st' ->];
        [discriminate|exact H|].
      eexists. reflexivity.
Qed.

(** The conditions on the line that opens a column list cannot be dropped:
    white space after the parenthesis, on a line that the first two stages
    leave alone, is lost. *)
Lemma opening_line_loses_trailing_space :
  forallb stable (map lit ["NAME"; "(  "; "  a INT"; ")"]%string) = true
  /\ format (text ["NAME"; "(  "; "  a INT"; ")"]%string)
     = Ok (text ["NAME"; "("; "  a INT"; ")"]%string).
Proof. split; vm_compute; reflexivity. Qed.

(** C4, amended: [format] gives back every self-consistent text with at
    most one column line in each column list.  The text is read as the
    loop reads it: every line is left alone by the keyword and header
    stages; the line that opens a list is its indentation and the
    parenthesis, with nothing after it; the list runs to the first line
    that starts with a closing parenthesis, or to the end of the text;
    its one column line has no trailing comma. *)
Theorem format_fixed_point (ddl : str)
  (Hself : self_consistent false false (split_on nl ddl) = true) :
  format ddl = Ok ddl.
Proof.
  unfold format.
  destruct (for_lines_self_consistent (split_on nl ddl) initial false)
    as [st' ->]; [discriminate|exact Hself|].
  cbn [bind fst snd]. rewrite join_split. reflexivity.
Qed.

Lemma format_fixed_point_example :
  format (text ["CREATE OR REPLACE TABLE {{EDW_DB_NAME}}.s.t"; "  (";
                "    id INT"; ""; "  );"; "SELECT 1"; "("; ""; "  y"]%string)
  = Ok (text ["CREATE OR REPLACE TABLE {{EDW_DB_NAME}}.s.t"; "  (";
              "    id INT"; ""; "  );"; "SELECT 1"; "("; ""; "  y"]%string).
Proof.
  apply format_fixed_point. vm_compute. reflexivity.
Defined.

(** * Further properties of the code *)

(** ** One or two lines for each line *)

Lemma restructure_lines (st : state) (line stripped_line : str) :
  1 <= length (snd (restructure st line stripped_line)) <= 2.
Proof.
  unfold restructure.
  destruct (negb (inside_columns st)
            && endswith (rstrip stripped_line) (lit "(")).
  - cbn [snd]. rewrite length_app.
    destruct (nonempty (rstrip (slice_to line (rfind line "("%char))));
      simpl; lia.
  - destruct (inside_columns st && startswith stripped_line (lit ")"));
      [simpl; lia|].
    destruct (inside_columns st && nonempty stripped_line); [|simpl; lia].
    destruct (first_column st); simpl; lia.
Qed.

(** [format] never drops a line and adds at most one line for each line it
    reads: the loop appends one line, or two where a column list opens. *)
Theorem format_line_count (lines : list str) (st : state) :
  exists st' out,
    for_lines st lines = Ok (st', out)
    /\ length lines <= length out <= 2 * length lines.
Proof.
  revert st. induction lines as [|l ls IH]; intros st.
  - exists st, []. split; [reflexivity|simpl; lia].
  - cbn [for_lines]. unfold step.
    destruct (prepare_ok l) as [[line s] ->]. cbn [bind fst snd].
    destruct (IH (fst (restructure st line s))) as (st' & out & -> & Hlen).
    cbn [bind fst snd]. eexists _, _. split; [reflexivity|].
    pose proof (restructure_lines st line s).
    rewrite length_app. simpl. lia.
Qed.

(** ** Lines outside of a column list *)

Lemma space_not_word (x : ascii) : isspace x = true -> is_word x = false.
Proof. each_char x. Qed.

Lemma strip_spaces (ws : str) : forallb isspace ws = true -> strip ws = [].
Proof. intros H. unfold strip. rewrite rstrip_spaces by exact H. reflexivity. Qed.

Lemma exec_create_needs_create (p : pos) :
  ci_prefix (lit "CREATE") (rest p) = false ->
  exec create_statement_regex p = None.
Proof.
  intros H. unfold exec, create_statement_regex. cbn [seqs run].
  rewrite run_word_i, H. reflexivity.
Qed.

(** A line without the letter C, in either case, is no header. *)
Lemma search_create_none (s : str) :
  forallb (fun x => negb (ci_eqb x "C"%char)) s = true ->
  forall start pv, search_from create_statement_regex start pv s = None.
Proof.
  induction s as [|x t IH]; intros H start pv; cbn [search_from];
    unfold match_at.
  - rewrite exec_create_needs_create by reflexivity. reflexivity.
  - simpl in H. apply andb_prop in H as [Hx Ht].
    apply negb_true_iff in Hx.
    rewrite exec_create_needs_create
      by (cbn [rest lit list_ascii_of_string ci_prefix]; rewrite Hx;
          reflexivity).
    apply IH. exact Ht.
Qed.

Lemma words_spec_nonwords (keywords : list str) (s : str) :
  forallb (fun x => negb (is_word x)) s = true ->
  words_spec keywords [] s = s.
Proof.
  induction s as [|x t IH]; intros H; cbn [words_spec]; [apply flush_nil|].
  simpl in H. apply andb_prop in H as [Hx Ht]. apply negb_true_iff in Hx.
  rewrite Hx, flush_nil, IH by exact Ht. reflexivity.
Qed.

Lemma replace_keeps (old new : str) (s : str) :
  contains old s = false -> replace old new s = s.
Proof.
  unfold replace. induction s as [|x t IH]; intros H; [reflexivity|].
  cbn [contains] in H. apply orb_false_elim in H as [Hs Ht].
  cbn [replace_from]. rewrite Hs, IH by exact Ht. reflexivity.
Qed.

Lemma contains_needs_head (c : ascii) (p s : str) :
  forallb (fun x => negb (ascii_eqb x c)) s = true ->
  contains (c :: p) s = false.
Proof.
  induction s as [|x t IH]; intros H; [reflexivity|].
  simpl in H. apply andb_prop in H as [Hx Ht]. apply negb_true_iff in Hx.
  cbn [contains startswith]. rewrite Hx, IH by exact Ht. reflexivity.
Qed.

Lemma forallb_impl (f g : ascii -> bool) (s : str) :
  (forall x, f x = true -> g x = true) ->
  forallb f s = true -> forallb g s = true.
Proof.
  intros Hfg H. apply forallb_forall. intros x Hx.
  apply Hfg. exact (proj1 (forallb_forall f s) H x Hx).
Qed.

Lemma normalized_spaces (ws : str) :
  forallb isspace ws = true -> normalized ws = ws.
Proof.
  intros H. unfold normalized, _uppercase_keywords.
  rewrite uppercase_keywords_spec by apply sql_keywords_good.
  unfold normalize_spec. rewrite words_spec_nonwords.
  - apply replace_keeps. apply contains_needs_head.
    revert H. apply forallb_impl. intros x Hx.
    destruct (ascii_eqb x "{"%char) eqn:E; [|reflexivity].
    apply ascii_eqb_eq in E. subst x. discriminate.
  - revert H. apply forallb_impl. intros x Hx.
    rewrite (space_not_word x Hx). reflexivity.
Qed.

Lemma prepare_spaces (ws : str) :
  forallb isspace ws = true -> prepare ws = Ok (ws, []).
Proof.
  intros H. unfold prepare. rewrite (normalized_spaces ws H).
  unfold search. rewrite search_create_none, (strip_spaces ws H);
    [reflexivity|].
  revert H. apply forallb_impl. intros x Hx. apply negb_true_iff.
  apply ci_eqb_word; [reflexivity|apply space_not_word; exact Hx].
Qed.

(** A line of white space, the empty line among them, comes out as it is
    and leaves both flags as they are, inside a column list and outside. *)
Theorem blank_line_unchanged (st : state) (line0 : str)
  (Hblank : forallb isspace line0 = true) :
  step st line0 = Ok (st, [line0]).
Proof.
  unfold step. rewrite (prepare_spaces line0 Hblank). cbn [bind fst snd].
  unfold restructure. destruct (inside_columns st); reflexivity.
Qed.

Lemma blank_line_unchanged_example :
  step (mkstate true false) (lit "   ") = Ok (mkstate true false, [lit "   "]).
Proof. apply blank_line_unchanged. reflexivity. Defined.

(** Upper-casing and then lower-casing a character is lower-casing it. *)
Lemma lower_upper_char (x : ascii) : lower_char (upper_char x) = lower_char x.
Proof. each_char x. Qed.










(** ** The line that opens a column list *)

Lemma rfind_from_tail (c : ascii) (ws : str) :
  forallb (fun x => negb (ascii_eqb x c)) ws = true ->
  forall i found, rfind_from c i found ws = found.
Proof.
  induction ws as [|x ws IH]; intros H i found; [reflexivity|].
  simpl in H. apply andb_prop in H as [Hx Hws]. apply negb_true_iff in Hx.
  cbn [rfind_from]. rewrite Hx. apply IH. exact Hws.
Qed.

Lemma rfind_from_occurrence (c : ascii) (pre ws : str) :
  forallb (fun x => negb (ascii_eqb x c)) ws = true ->
  forall i found,
    rfind_from c i found (pre ++ c :: ws) = (i + Z.of_nat (length pre))%Z.
Proof.
  intros Hws. induction pre as [|x pre IH]; intros i found.
  - cbn [app rfind_from length]. rewrite ascii_eqb_refl.
    rewrite rfind_from_tail by exact Hws. simpl. lia.
  - cbn [app rfind_from length]. rewrite IH. lia.
Qed.

Lemma opening_line_inv (line : str) :
  endswith (strip line) (lit "(") = true ->
  exists body ws,
    line = body ++ "("%char :: ws /\ forallb isspace ws = true.
Proof.
  intros H. apply endswith_char_inv in H as [b Hb].
  destruct (rstrip_split line) as (ws & Hl & Hws).
  exists (takewhile isspace (rstrip line) ++ b), ws. split; [|exact Hws].
  rewrite Hl at 1. rewrite <- app_assoc.
  change ("("%char :: ws) with (["("%char] ++ ws).
  rewrite !app_assoc. f_equal. rewrite <- app_assoc, <- Hb.
  symmetry. apply takewhile_dropwhile.
Qed.

(** Outside of a column list, a line whose stripped text ends with an
    opening parenthesis is cut at that parenthesis: what stands before it,
    without the white space at its end, is emitted if anything is left,
    then the indentation of the line with the parenthesis; white space
    after the parenthesis is lost, and the first-column flag is set. *)
Theorem opening_line_split (st : state) (line0 line : str)
  (Hout : inside_columns st = false)
  (Hline : processed line0 line)
  (Hend : endswith (strip line) (lit "(") = true) :
  exists body ws,
    line = body ++ lit "(" ++ ws
    /\ forallb isspace ws = true
    /\ step st line0
       = Ok (mkstate true true,
             (if nonempty (rstrip body) then [rstrip body] else [])
               ++ [leading_ws line ++ lit "("]).
Proof.
  destruct Hline as [s Hp].
  destruct (stripped_tests _ _ _ Hp) as (_ & _ & He).
  destruct (opening_line_inv line Hend) as (body & ws & Hl & Hws).
  exists body, ws. split; [exact Hl|]. split; [exact Hws|].
  unfold step. rewrite Hp. cbn [bind fst snd]. unfold restructure.
  rewrite Hout, He, Hend. cbn [negb andb]. rewrite indent_of_lstrip.
  assert (Hr : rfind line "("%char = Z.of_nat (length body)).
  { rewrite Hl. unfold rfind. rewrite rfind_from_occurrence; [lia|].
    revert Hws. apply forallb_impl. intros x Hx.
    destruct (ascii_eqb x "("%char) eqn:E; [|reflexivity].
    apply ascii_eqb_eq in E. subst x. discriminate. }
  rewrite Hr. unfold slice_to.
  destruct (Z.of_nat (length body) <? 0)%Z eqn:E;
    [apply Z.ltb_lt in E; lia|].
  rewrite Nat2Z.id.
  assert (Hf : firstn (length body) line = body).
  { rewrite Hl, firstn_app, firstn_all, Nat.sub_diag. cbn [firstn].
    apply app_nil_r. }
  rewrite Hf. reflexivity.
Qed.

Lemma opening_line_split_example :
  exists body ws,
    lit "  t1 (  " = body ++ lit "(" ++ ws
    /\ forallb isspace ws = true
    /\ step initial (lit "  t1 (  ")
       = Ok (mkstate true true,
             (if nonempty (rstrip body) then [rstrip body] else [])
               ++ [leading_ws (lit "  t1 (  ") ++ lit "("]).
Proof.
  apply (opening_line_split initial (lit "  t1 (  ") (lit "  t1 (  "));
    [reflexivity
    |exists (lit "t1 ("); vm_compute; reflexivity
    |vm_compute; reflexivity].
Defined.

(** ** [move_commas_to_start], the earlier form of the loop *)

Lemma move_commas_step_one (st : state) (line : str) :
  length (snd (move_commas_step st line)) = 1.
Proof.
  unfold move_commas_step.
  destruct (endswith (strip line) (lit "(")); [reflexivity|].
  destruct (startswith (strip line) (lit ")")); [reflexivity|].
  destruct (inside_columns st); [|reflexivity].
  destruct (first_column st); reflexivity.
Qed.

(** The earlier loop emits exactly one line for each line it reads. *)
Theorem move_commas_line_count (lines : list str) (st : state) :
  length (snd (move_commas_lines st lines)) = length lines.
Proof.
  revert st. induction lines as [|l ls IH]; intros st; [reflexivity|].
  cbn [move_commas_lines snd]. rewrite length_app, move_commas_step_one, IH.
  reflexivity.
Qed.

Lemma move_commas_step_first (st : state) (line : str) :
  first_column st = false ->
  first_column (fst (move_commas_step st line)) = false.
Proof.
  intros Hf. unfold move_commas_step.
  destruct (endswith (strip line) (lit "(")); [exact Hf|].
  destruct (startswith (strip line) (lit ")")); [exact Hf|].
  destruct (inside_columns st); [|exact Hf].
  rewrite Hf. exact Hf.
Qed.

Lemma move_commas_lines_first (lines : list str) :
  forall st,
    first_column st = false ->
    first_column (fst (move_commas_lines st lines)) = false.
Proof.
  induction lines as [|l ls IH]; intros st Hf; [exact Hf|].
  cbn [move_commas_lines fst]. apply IH, move_commas_step_first, Hf.
Qed.

(** In the earlier loop the first-column flag is never set again: after the
    first column of a text, every line handled inside a column list gets a
    comma, the first line of a later column list too. *)
Theorem move_commas_first_column_once
  (st : state) (lines : list str) (line : str)
  (Hfirst : first_column st = false) :
  let st' := fst (move_commas_lines st lines) in
  let body := drop_trailing_comma line in
  first_column st' = false
  /\ (inside_columns st' = true ->
      endswith (strip line) (lit "(") = false ->
      startswith (strip line) (lit ")") = false ->
      move_commas_step st' line
      = (st', [leading_ws body ++ lit "," ++ lstrip body])).
Proof.
  intros st' body.
  assert (Hf : first_column st' = false)
    by (apply move_commas_lines_first; exact Hfirst).
  split; [exact Hf|]. intros Hin He Hc.
  rewrite move_commas_column_line, Hc by assumption.
  unfold column_line. rewrite Hf. reflexivity.
Qed.

Lemma move_commas_first_column_once_example :
  move_commas_step
    (fst (move_commas_lines (mkstate true false)
            (map lit ["  a INT,"; ")"; "t2 ("]%string)))
    (lit "  x INT,")
  = (mkstate true false, [lit "  ,x INT"]).
Proof.
  apply (move_commas_first_column_once (mkstate true false)
           (map lit ["  a INT,"; ")"; "t2 ("]%string) (lit "  x INT,"));
    vm_compute; reflexivity.
Defined.

Lemma drop_trailing_comma_spaces (ws : str) :
  forallb isspace ws = true -> drop_trailing_comma ws = ws.
Proof.
  intros H. unfold drop_trailing_comma. rewrite rstrip_spaces by exact H.
  reflexivity.
Qed.

Lemma takewhile_all_id (f : ascii -> bool) (s : str) :
  forallb f s = true -> takewhile f s = s /\ dropwhile f s = [].
Proof.
  induction s as [|x t IH]; intros H; [split; reflexivity|].
  simpl in H. apply andb_prop in H as [Hx Ht]. simpl. rewrite Hx.
  destruct (IH Ht) as [-> ->]. split; reflexivity.
Qed.

(** In the earlier loop a line of white space inside a column list counts
    as a column: it uses up the first-column flag, or it comes out with a
    comma at its end. *)
Theorem move_commas_blank_line (st : state) (line : str)
  (Hin : inside_columns st = true)
  (Hblank : forallb isspace line = true) :
  move_commas_step st line
  = if first_column st
    then (mkstate true false, [line])
    else (st, [line ++ lit ","]).
Proof.
  rewrite move_commas_column_line
    by (trivial; rewrite (strip_spaces line Hblank); reflexivity).
  rewrite (strip_spaces line Hblank). cbn [startswith lit list_ascii_of_string].
  unfold column_line. rewrite (drop_trailing_comma_spaces line Hblank).
  unfold leading_ws, lstrip.
  destruct (takewhile_all_id isspace line Hblank) as [-> ->].
  reflexivity.
Qed.

Lemma move_commas_blank_line_example :
  move_commas_step (mkstate true false) (lit "  ")
  = (mkstate true false, [lit "  ,"]).
Proof.
  apply (move_commas_blank_line (mkstate true false) (lit "  "));
    reflexivity.
Defined.


Lemma move_commas_lines_outside (lines : list str) :
  forall st,
    inside_columns st = false ->
    Forall (fun l => endswith (strip l) (lit "(") = false) lines ->
    snd (move_commas_lines st lines) = lines
    /\ inside_columns (fst (move_commas_lines st lines)) = false.
Proof.
  induction lines as [|l ls IH]; intros st Hout H; [auto|].
  inversion H as [|? ? Hl Hls]; subst.
  assert (Hs : move_commas_step st l = (st, [l])
               \/ move_commas_step st l = (mkstate false (first_column st), [l])).
  { unfold move_commas_step. rewrite Hl, Hout.
    destruct (startswith (strip l) (lit ")")); auto. }
  cbn [move_commas_lines fst snd].
  destruct Hs as [Hs|Hs]; rewrite Hs; cbn [fst snd].
  - destruct (IH st Hout Hls) as [-> ->]. auto.
  - destruct (IH (mkstate false (first_column st)) eq_refl Hls) as [-> ->].
    auto.
Qed.

(** A text in which no line ends with an opening parenthesis is given back
    by the earlier loop as it is. *)
Theorem move_commas_without_columns (ddl : str)
  (Hnone : Forall (fun l => endswith (strip l) (lit "(") = false)
             (split_on nl ddl)) :
  move_commas_to_start ddl = ddl.
Proof.
  unfold move_commas_to_start.
  destruct (move_commas_lines_outside _ initial eq_refl Hnone) as [-> _].
  apply join_split.
Qed.

Lemma move_commas_without_columns_example :
  move_commas_to_start (text ["select a,"; "  b,"; ""; "from t;"]%string)
  = text ["select a,"; "  b,"; ""; "from t;"]%string.
Proof.
  apply move_commas_without_columns.
  assert (E : split_on nl (text ["select a,"; "  b,"; ""; "from t;"]%string)
              = map lit ["select a,"; "  b,"; ""; "from t;"]%string)
    by (vm_compute; reflexivity).
  rewrite E. repeat constructor.
Defined.

(** ** A text without headers and column lists *)



Lemma same_shape_join (ls ls' : list str) :
  Forall2 same_shape ls ls' -> same_shape (join [nl] ls) (join [nl] ls').
Proof.
  intros H. induction H as [|l l' ls ls' Hl Hls IH]; [constructor|].
  destruct Hls as [|m m' ms ms' Hm Hms]; [exact Hl|].
  change (same_shape (l ++ [nl] ++ join [nl] (m :: ms))
            (l' ++ [nl] ++ join [nl] (m' :: ms'))).
  apply same_shape_app; [exact Hl|].
  apply same_shape_app; [apply same_shape_refl|exact IH].
Qed.




(** ** Names of the output files *)

Lemma replace_miss_any (old new : str) (x : ascii) (t : str) :
  startswith (x :: t) old = false ->
  replace old new (x :: t) = x :: replace old new t.
Proof. intros H. unfold replace. cbn [replace_from]. rewrite H. reflexivity. Qed.

Lemma sql_prefix_of_app (u : str) :
  u <> [] ->
  startswith (u ++ sql_ext) sql_ext = startswith u sql_ext.
Proof.
  intros Hu. destruct u as [|x [|y [|z [|w u]]]]; [congruence| | | |];
    cbn [app sql_ext lit list_ascii_of_string startswith];
    rewrite ?ascii_eqb_refl;
    change (ascii_eqb "."%char "s"%char) with false;
    change (ascii_eqb "."%char "q"%char) with false;
    change (ascii_eqb "."%char "l"%char) with false;
    rewrite ?andb_false_r; try reflexivity.
  rewrite !startswith_nil. reflexivity.
Qed.

(** A name that ends with [.sql] and holds no other [.sql] gets
    [_formatted] put before the extension. *)
Theorem output_filename_sql (base : str)
  (Hbase : contains sql_ext base = false) :
  output_filename (base ++ sql_ext) = base ++ formatted_ext
  /\ is_sql_file (base ++ sql_ext) = true.
Proof.
  split.
  - unfold output_filename. induction base as [|x b IH];
      [vm_compute; reflexivity|].
    cbn [contains] in Hbase. apply orb_false_elim in Hbase as [Hs Hb].
    cbn [app]. rewrite replace_miss_any.
    + rewrite IH by exact Hb. reflexivity.
    + change (x :: b ++ sql_ext) with ((x :: b) ++ sql_ext).
      rewrite sql_prefix_of_app by discriminate. exact Hs.
  - unfold is_sql_file, endswith, lower.
    rewrite map_app, rev_app_distr. apply startswith_app.
Qed.

Lemma output_filename_sql_example :
  output_filename (lit "orders.sql") = lit "orders_formatted.sql"
  /\ is_sql_file (lit "orders.sql") = true.
Proof. apply (output_filename_sql (lit "orders")). reflexivity. Defined.

Lemma contains_suffix (p u : str) : contains p (u ++ p) = true.
Proof.
  induction u as [|x u IH].
  - cbn [app]. destruct p as [|y p]; [reflexivity|].
    cbn [contains]. rewrite <- (app_nil_r (y :: p)) at 1.
    rewrite startswith_app. reflexivity.
  - cbn [app contains]. rewrite IH. apply orb_true_r.
Qed.

Lemma endswith_contains (s p : str) :
  endswith s p = true -> contains p s = true.
Proof.
  unfold endswith. intros H. apply startswith_inv in H as [t H].
  apply (f_equal (@rev ascii)) in H.
  rewrite rev_involutive, rev_app_distr, rev_involutive in H.
  rewrite H. apply contains_suffix.
Qed.

(** The files picked from a folder never reach the branch of
    [_process_folder_thread] that appends the suffix: for them the name of
    the graphical interface is the name of the command line. *)
Theorem output_filename_gui_same (filename : str)
  (Hsql : is_sql_file filename = true) :
  output_filename_gui filename = output_filename filename.
Proof.
  unfold output_filename_gui, output_filename.
  rewrite (endswith_contains _ _ Hsql). reflexivity.
Qed.

Lemma output_filename_gui_same_example :
  output_filename_gui (lit "a.SQL") = output_filename (lit "a.SQL").
Proof. apply output_filename_gui_same. reflexivity. Defined.

(** The files are picked whatever the case of their extension, but only
    [.sql] in lower case is replaced: a file picked that holds no [.sql] in
    lower case has an output of the same name as itself. *)
Theorem output_filename_upper_case (filename : str)
  (Hsql : is_sql_file filename = true)
  (Hno : contains sql_ext filename = false) :
  output_filename filename = filename
  /\ output_filename_gui filename = filename.
Proof.
  assert (H : output_filename filename = filename)
    by (apply replace_keeps; exact Hno).
  split; [exact H|]. rewrite output_filename_gui_same by exact Hsql. exact H.
Qed.

Lemma output_filename_upper_case_example :
  output_filename (lit "ORDERS.SQL") = lit "ORDERS.SQL"
  /\ output_filename_gui (lit "ORDERS.SQL") = lit "ORDERS.SQL".
Proof. apply output_filename_upper_case; reflexivity. Defined.

(** ** Normalizing the keywords twice *)

Lemma upper_upper_char (x : ascii) : upper_char (upper_char x) = upper_char x.
Proof. each_char x. Qed.

Lemma word_upper_char (x : ascii) : is_word (upper_char x) = is_word x.
Proof. each_char x. Qed.

Lemma ci_equal_upper (k : str) :
  forall w, ci_equal k (upper w) = ci_equal k w.
Proof.
  induction k as [|c k IH]; intros [|x w]; try reflexivity.
  cbn [upper map ci_equal]. unfold ci_eqb. rewrite lower_upper_char.
  fold (upper w). rewrite IH. reflexivity.
Qed.

Section Twice.
Variable keywords : list str.

Lemma is_keyword_upper (w : str) :
  is_keyword keywords (upper w) = is_keyword keywords w.
Proof.
  unfold is_keyword. induction keywords as [|k ks IH]; [reflexivity|].
  simpl. rewrite ci_equal_upper, IH. reflexivity.
Qed.

Lemma flush_flush (w : str) :
  flush keywords (flush keywords w) = flush keywords w.
Proof.
  unfold flush. destruct (is_keyword keywords w) eqn:E.
  - rewrite is_keyword_upper, E. unfold upper. rewrite map_map.
    apply map_ext. apply upper_upper_char.
  - rewrite E. reflexivity.
Qed.

Lemma flush_words (w : str) :
  forallb is_word w = true -> forallb is_word (flush keywords w) = true.
Proof.
  intros H. unfold flush. destruct (is_keyword keywords w); [|exact H].
  induction w as [|x w IH]; [reflexivity|].
  simpl in H. apply andb_prop in H as [Hx Hw].
  cbn [upper map forallb]. rewrite word_upper_char, Hx. exact (IH Hw).
Qed.

Lemma normalize_spec_cons_nonword (z : ascii) (t : str) :
  is_word z = false ->
  normalize_spec keywords (z :: t) = z :: normalize_spec keywords t.
Proof.
  intros Hz. unfold normalize_spec. cbn [words_spec].
  rewrite Hz, flush_nil. reflexivity.
Qed.

Lemma normalize_spec_run_end (r : str) :
  run_end r = true -> run_end (normalize_spec keywords r) = true.
Proof.
  destruct r as [|z r]; intros H.
  - unfold normalize_spec. cbn [words_spec]. rewrite flush_nil. reflexivity.
  - simpl in H. apply negb_true_iff in H.
    rewrite normalize_spec_cons_nonword by exact H. simpl. rewrite H.
    reflexivity.
Qed.

Lemma normalize_spec_twice (n : nat) :
  forall s,
    length s <= n ->
    normalize_spec keywords (normalize_spec keywords s)
    = normalize_spec keywords s.
Proof.
  induction n as [|n IH]; intros s Hn.
  - destruct s; [|simpl in Hn; lia]. unfold normalize_spec. cbn [words_spec].
    rewrite flush_nil. cbn [words_spec]. apply flush_nil.
  - destruct s as [|x t].
    { unfold normalize_spec. cbn [words_spec].
      rewrite flush_nil. cbn [words_spec]. apply flush_nil. }
    simpl in Hn. destruct (is_word x) eqn:Hx.
    + destruct (span_word (x :: t)) as [Hw Hr].
      rewrite <- (takewhile_dropwhile is_word (x :: t)).
      set (w := takewhile is_word (x :: t)) in *.
      set (r := dropwhile is_word (x :: t)) in *.
      assert (Hlen : length r <= n).
      { assert (L : length w + length r = S (length t)).
        { rewrite <- length_app. unfold w, r.
          rewrite takewhile_dropwhile. reflexivity. }
        assert (W : 1 <= length w)
          by (unfold w; cbn [takewhile]; rewrite Hx; simpl; lia).
        lia. }
      unfold normalize_spec at 2 3.
      rewrite (words_spec_word keywords w r Hw Hr).
      fold (normalize_spec keywords r). unfold normalize_spec at 1.
      rewrite words_spec_word;
        [|apply flush_words; exact Hw|apply normalize_spec_run_end; exact Hr].
      fold (normalize_spec keywords (normalize_spec keywords r)).
      rewrite flush_flush, IH by exact Hlen. reflexivity.
    + rewrite !normalize_spec_cons_nonword by exact Hx.
      rewrite IH by lia. reflexivity.
Qed.

End Twice.

(** The keyword normalizer has nothing left to do on its own outcome. *)
Theorem uppercase_keywords_idempotent (line : str) :
  _uppercase_keywords (_uppercase_keywords line) = _uppercase_keywords line.
Proof.
  unfold _uppercase_keywords.
  rewrite !uppercase_keywords_spec by apply sql_keywords_good.
  apply (normalize_spec_twice sql_keywords (length line)). lia.
Qed.

(** ** What a match consumes *)

Section Sound.
Context {A : Type}.

Lemma star_sound (g : greed) (L : str -> Prop) (m : @matcher A) :
  sound_for L m -> forall fuel, sound_for (star_lang L) (star g m fuel).
Proof.
  intros Hm fuel. induction fuel as [|f IH]; intros p c k v H; cbn [star] in H.
  - exists [], p. split; [exact H|]. split; [reflexivity|constructor].
  - assert (Hstop : k p c = Some v ->
                    exists t q, k q c = Some v /\ rest p = t ++ rest q
                                /\ star_lang L t).
    { intros H'. exists [], p. split; [exact H'|].
      split; [reflexivity|constructor]. }
    assert (Hmore :
      m p c (fun p' c' =>
               if length (rest p') <? length (rest p)
               then star g m f p' c' k else None) = Some v ->
      exists t q, k q c = Some v /\ rest p = t ++ rest q /\ star_lang L t).
    { intros H'. apply Hm in H' as (t1 & q1 & H1 & E1 & L1).
      destruct (length (rest q1) <? length (rest p)); [|discriminate].
      apply IH in H1 as (t2 & q2 & H2 & E2 & L2).
      exists (t1 ++ t2), q2. split; [exact H2|]. split.
      - rewrite E1, E2, app_assoc. reflexivity.
      - constructor; assumption. }
    destruct g; unfold orelse in H.
    + destruct (m p c _) eqn:E; [injection H as ->; auto|auto].
    + destruct (k p c) eqn:E; [injection H as ->; auto|auto].
Qed.

Lemma run_sound (r : re) :
  groupless r = true -> sound_for (lang r) (@run A r).
Proof.
  induction r as [|f|a IHa b IHb|a IHa b IHb|g a IHa|i a IHa| |];
    intros Hg p c k v H; cbn [run] in H; cbn [groupless] in Hg.
  - exists [], p. split; [exact H|]. split; reflexivity.
  - destruct (rest p) as [|x t] eqn:E; [discriminate|].
    destruct (f x) eqn:Ef; [|discriminate].
    exists [x], (mkpos (Some x) t). split; [exact H|]. split; [reflexivity|].
    exists x. auto.
  - apply andb_prop in Hg as [Ha Hb].
    apply (IHa Ha) in H as (t1 & q1 & H1 & E1 & L1).
    apply (IHb Hb) in H1 as (t2 & q2 & H2 & E2 & L2).
    exists (t1 ++ t2), q2. split; [exact H2|]. split.
    + rewrite E1, E2, app_assoc. reflexivity.
    + exists t1, t2. auto.
  - apply andb_prop in Hg as [Ha Hb]. unfold orelse in H.
    destruct (run a p c k) eqn:E.
    + injection H as ->. apply (IHa Ha) in E as (t & q & H1 & E1 & L1).
      exists t, q. cbn [lang]. auto.
    + apply (IHb Hb) in H as (t & q & H1 & E1 & L1).
      exists t, q. cbn [lang]. auto.
  - exact (star_sound g _ _ (IHa Hg) _ p c k v H).
  - discriminate.
  - destruct (boundary p); [|discriminate].
    exists [], p. split; [exact H|]. split; reflexivity.
  - destruct (at_eol p); [|discriminate].
    exists [], p. split; [exact H|]. split; reflexivity.
Qed.

End Sound.

(** ** The anatomy of a header match *)

Lemma greedy_chr (f : ascii -> bool) (s : str) :
  forall pv c fuel (k : @cont (pos * caps)),
    (forall q d, k q d <> None) ->
    length s <= fuel ->
    star Greedy (run (Chr f)) fuel (mkpos pv s) c k
    = k (mkpos (last_prev pv (takewhile f s)) (dropwhile f s)) c.
Proof.
  induction s as [|x t IH]; intros pv c fuel k Hk Hf.
  - destruct fuel; reflexivity.
  - destruct fuel as [|fuel]; [simpl in Hf; lia|]. simpl in Hf.
    cbn [star run rest takewhile dropwhile].
    destruct (f x) eqn:Ex; cbn [orelse last_prev]; [|reflexivity].
    assert (Hlt : (length t <? length (x :: t)) = true)
      by (apply Nat.ltb_lt; simpl; lia).
    cbn [rest]. rewrite Hlt, IH by (trivial; lia).
    destruct (k _ c) eqn:E; [reflexivity|]. exfalso. exact (Hk _ _ E).
Qed.

Lemma between_takewhile (f : ascii -> bool) (pv pv' : option ascii) (s : str) :
  between (mkpos pv s) (mkpos pv' (dropwhile f s)) = takewhile f s.
Proof.
  unfold between. cbn [rest].
  rewrite <- (takewhile_dropwhile f s) at 1 3. rewrite length_app.
  replace (length (takewhile f s) + length (dropwhile f s)
           - length (dropwhile f s))
    with (length (takewhile f s)) by lia.
  rewrite firstn_app, firstn_all, Nat.sub_diag. cbn [firstn]. apply app_nil_r.
Qed.

Lemma between_app (pv pv' : option ascii) (t r : str) :
  between (mkpos pv (t ++ r)) (mkpos pv' r) = t.
Proof.
  unfold between. cbn [rest]. rewrite length_app.
  replace (length t + length r - length r) with (length t) by lia.
  rewrite firstn_app, firstn_all, Nat.sub_diag. cbn [firstn]. apply app_nil_r.
Qed.

Section RunEquations.
Context {A : Type}.

Lemma run_seq (a b : re) (p : pos) (c : caps) (k : @cont A) :
  run (Seq a b) p c k = run a p c (fun p' c' => run b p' c' k).
Proof. reflexivity. Qed.

Lemma run_group (i : nat) (a : re) (p : pos) (c : caps) (k : @cont A) :
  run (Group i a) p c k
  = run a p c (fun p' c' => k p' ((i, between p p') :: c')).
Proof. reflexivity. Qed.

Lemma run_chr (f : ascii -> bool) (pv : option ascii) (s : str)
      (c : caps) (k : @cont A) :
  run (Chr f) (mkpos pv s) c k
  = match s with
    | x :: t => if f x then k (mkpos (Some x) t) c else None
    | [] => None
    end.
Proof. reflexivity. Qed.

Lemma run_star (g : greed) (a : re) (p : pos) (c : caps) (k : @cont A) :
  run (Star g a) p c k = star g (run a) (length (rest p)) p c k.
Proof. reflexivity. Qed.

End RunEquations.

Lemma suffix_match (pv : option ascii) (s : str) (c : caps) :
  run (Group 3 (Star Greedy dot)) (mkpos pv s) c accept
  = Some (mkpos (last_prev pv (takewhile not_nl s)) (dropwhile not_nl s),
          (3, takewhile not_nl s) :: c).
Proof.
  rewrite run_group, run_star. unfold dot.
  change (fun c0 : ascii => negb (ascii_eqb c0 nl)) with not_nl.
  cbn [rest]. rewrite greedy_chr by (trivial; intros q d; discriminate).
  unfold accept. rewrite between_takewhile. reflexivity.
Qed.

(** After the prefix: the identifier is the longest run of characters that
    are no white space and no opening parenthesis, and the suffix is what
    follows up to the end of the line. *)
Lemma tail_match (pv : option ascii) (s : str) (c : caps) :
  run tail_regex (mkpos pv s) c accept
  = match s with
    | x :: _ =>
        if ident_char x
        then
          let identifier := takewhile ident_char s in
          let s' := dropwhile ident_char s in
          let suffix := takewhile not_nl s' in
          Some (mkpos (last_prev (last_prev pv identifier) suffix)
                      (dropwhile not_nl s'),
                (3, suffix) :: (2, identifier) :: c)
        else None
    | [] => None
    end.
Proof.
  unfold tail_regex, plus. rewrite run_seq, run_group, run_seq, run_chr.
  destruct s as [|x t]; [reflexivity|].
  cbn [takewhile dropwhile]. destruct (ident_char x) eqn:Ex; [|reflexivity].
  rewrite run_star. cbn [rest].
  rewrite greedy_chr; [|intros [qv qs] d; rewrite suffix_match; discriminate|lia].
  rewrite suffix_match. cbv zeta. cbn [last_prev].
  assert (B : forall pv',
             between (mkpos pv (x :: t)) (mkpos pv' (dropwhile ident_char t))
             = x :: takewhile ident_char t).
  { intros pv'.
    pose proof (between_takewhile ident_char pv pv' (x :: t)) as B.
    cbn [takewhile dropwhile] in B. rewrite Ex in B. exact B. }
  rewrite B. reflexivity.
Qed.

Lemma ci_equal_prefix (w : str) :
  forall t1 t2, ci_equal w t1 = true -> ci_prefix w (t1 ++ t2) = true.
Proof.
  induction w as [|c w IH]; intros [|x t1] t2 H; try discriminate;
    [reflexivity|].
  simpl in H. apply andb_prop in H as [Hx H]. cbn [app ci_prefix].
  rewrite Hx. apply IH. exact H.
Qed.

Lemma lang_word_i (w : str) :
  forall t, lang (word_i w) t -> ci_equal w t = true.
Proof.
  induction w as [|c w IH]; intros t H.
  - cbn in H. subst t. reflexivity.
  - destruct w as [|c' w].
    + cbn in H. destruct H as (x & -> & Hx). cbn [ci_equal]. unfold ci_eqb.
      rewrite Hx. reflexivity.
    + change (word_i (c :: c' :: w))
        with (Seq (chr_i c) (word_i (c' :: w))) in H.
      cbn [lang] in H. destruct H as (t1 & t2 & -> & H1 & H2).
      cbn in H1. destruct H1 as (x & -> & Hx).
      cbn [app ci_equal]. unfold ci_eqb. rewrite Hx. apply IH. exact H2.
Qed.

Lemma create_prefix_starts (t : str) :
  lang create_prefix_regex t -> ci_prefix (lit "CREATE") t = true.
Proof.
  unfold create_prefix_regex. cbn [seqs lang].
  intros (t1 & t2 & -> & H1 & _).
  apply ci_equal_prefix, lang_word_i. exact H1.
Qed.

Lemma exec_create_structure (pv : option ascii) (s : str)
      (p' : pos) (cs : caps) :
  exec create_statement_regex (mkpos pv s) = Some (p', cs) ->
  exists prefix s1,
    s = prefix ++ s1
    /\ lang create_prefix_regex prefix
    /\ takewhile ident_char s1 <> []
    /\ cs = [(3, takewhile not_nl (dropwhile ident_char s1));
             (2, takewhile ident_char s1); (1, prefix)]
    /\ rest p' = dropwhile not_nl (dropwhile ident_char s1).
Proof.
  unfold exec.
  change create_statement_regex
    with (Seq (Group 1 create_prefix_regex) tail_regex).
  rewrite run_seq, run_group. intros H.
  apply run_sound in H; [|reflexivity].
  destruct H as (t & [qv qs] & H & E & L). cbn [rest] in E.
  rewrite tail_match in H. exists t, qs. split; [exact E|]. split; [exact L|].
  destruct qs as [|x qs']; [discriminate|].
  destruct (ident_char x) eqn:Ex; [|discriminate].
  cbv zeta in H. injection H as <- <-.
  split; [cbn [takewhile]; rewrite Ex; discriminate|].
  split; [|reflexivity].
  rewrite E, between_app. reflexivity.
Qed.

Lemma search_from_inv (r : re) (s : str) :
  forall start pv m,
    search_from r start pv s = Some m ->
    exists before s' pv',
      s = before ++ s'
      /\ m_start m = start + length before
      /\ match_at r (m_start m) (mkpos pv' s') = Some m.
Proof.
  induction s as [|x t IH]; intros start pv m H; cbn [search_from] in H.
  - destruct (match_at r start (mkpos pv [])) as [m'|] eqn:E; [|discriminate].
    injection H as ->. exists [], [], pv.
    assert (Hs : m_start m = start).
    { unfold match_at in E. destruct (exec r _) as [[q cs]|]; [|discriminate].
      injection E as <-. reflexivity. }
    rewrite Hs. cbn [length app]. rewrite Nat.add_0_r. auto.
  - destruct (match_at r start (mkpos pv (x :: t))) as [m'|] eqn:E.
    + injection H as ->. exists [], (x :: t), pv.
      assert (Hs : m_start m = start).
      { unfold match_at in E.
        destruct (exec r _) as [[q cs]|]; [|discriminate].
        injection E as <-. reflexivity. }
      rewrite Hs. cbn [length app]. rewrite Nat.add_0_r. auto.
    + apply IH in H as (before & s' & pv' & -> & Hs & Hm).
      exists (x :: before), s', pv'. cbn [app length].
      split; [reflexivity|]. split; [lia|exact Hm].
Qed.

Lemma dropwhile_nl_one_line (s : str) :
  one_line s = true -> dropwhile not_nl s = [].
Proof.
  unfold one_line, not_nl. induction s as [|x t IH]; intros H; [reflexivity|].
  simpl in H. apply negb_true_iff, orb_false_elim in H as [Hx Ht].
  cbn [dropwhile]. rewrite Hx. cbn [negb]. apply IH.
  apply negb_true_iff. exact Ht.
Qed.

Lemma one_line_app (a b : str) :
  one_line (a ++ b) = true -> one_line b = true.
Proof.
  unfold one_line. rewrite existsb_app. intros H.
  apply negb_true_iff, orb_false_elim in H as [_ H].
  apply negb_true_iff. exact H.
Qed.

Lemma one_line_dropwhile (f : ascii -> bool) (s : str) :
  one_line s = true -> one_line (dropwhile f s) = true.
Proof.
  intros H. rewrite <- (takewhile_dropwhile f s) in H.
  apply one_line_app in H. exact H.
Qed.

(** The anatomy of a header: the line is what stands before the match, the
    prefix, the identifier, the suffix, and what follows the end of the
    line (nothing, for a line without a line break).  The prefix starts
    with CREATE in some case; the identifier is the longest run of
    characters that are neither white space nor an opening parenthesis and
    is not empty; the suffix holds no line break.  The rewritten line is
    made of the prefix, the identifier and the suffix only: what stood
    before CREATE, the indentation for one, is dropped unless the
    identifier has more than three parts. *)
Theorem header_rewrite (line : str) (m : mtch)
  (Hm : search create_statement_regex line = Some m) :
  exists before prefix identifier suffix after,
    line = before ++ prefix ++ identifier ++ suffix ++ after
    /\ length before = m_start m
    /\ group m 1 = Some prefix
    /\ group m 2 = Some identifier
    /\ group m 3 = Some suffix
    /\ m_text m = prefix ++ identifier ++ suffix
    /\ ci_prefix (lit "CREATE") prefix = true
    /\ identifier <> []
    /\ takewhile ident_char (identifier ++ suffix ++ after) = identifier
    /\ forallb not_nl suffix = true
    /\ (one_line line = true -> after = [])
    /\ _process_create_statement line
       = Ok (match new_identifier identifier with
             | Some new_id => canonical_prefix prefix ++ new_id ++ suffix
             | None => line
             end).
Proof.
  pose proof Hm as Hs. unfold search in Hs.
  apply search_from_inv in Hs as (before & s' & pv' & Hl & Hst & Hat).
  unfold match_at in Hat.
  destruct (exec create_statement_regex (mkpos pv' s')) as [[p' cs]|] eqn:E;
    [|discriminate].
  apply exec_create_structure in E as (prefix & s1 & Hs' & L & Hne & Hcs & Hr).
  set (identifier := takewhile ident_char s1) in *.
  set (s2 := dropwhile ident_char s1) in *.
  set (suffix := takewhile not_nl s2) in *.
  set (after := dropwhile not_nl s2) in *.
  assert (H1 : s1 = identifier ++ suffix ++ after).
  { unfold identifier, suffix, after, s2.
    rewrite (takewhile_dropwhile not_nl).
    symmetry. apply takewhile_dropwhile. }
  assert (Hg : group m 1 = Some prefix /\ group m 2 = Some identifier
               /\ group m 3 = Some suffix).
  { injection Hat as <-. unfold group. cbn [m_caps]. rewrite Hcs.
    repeat split; reflexivity. }
  destruct Hg as (G1 & G2 & G3).
  exists before, prefix, identifier, suffix, after.
  split; [rewrite Hl, Hs', H1; reflexivity|].
  split; [simpl in Hst; lia|].
  split; [exact G1|]. split; [exact G2|]. split; [exact G3|].
  split.
  { injection Hat as <-. cbn [m_text]. unfold between. cbn [rest].
    rewrite Hr, Hs', H1.
    replace (prefix ++ identifier ++ suffix ++ after)
      with ((prefix ++ identifier ++ suffix) ++ after)
      by (rewrite <- !app_assoc; reflexivity).
    rewrite length_app.
    replace (length (prefix ++ identifier ++ suffix) + length after
             - length after)
      with (length (prefix ++ identifier ++ suffix)) by lia.
    rewrite firstn_app, firstn_all, Nat.sub_diag. cbn [firstn].
    apply app_nil_r. }
  split; [apply create_prefix_starts; exact L|].
  split; [exact Hne|].
  split; [rewrite <- H1; reflexivity|].
  split; [apply takewhile_all|].
  split.
  { intros Hone. unfold after, s2. apply dropwhile_nl_one_line.
    apply one_line_dropwhile. rewrite Hl, Hs' in Hone.
    apply one_line_app, one_line_app in Hone. exact Hone. }
  unfold _process_create_statement. rewrite Hm, G1, G2. cbn [attr bind].
  destruct (new_identifier identifier); [rewrite G3|]; reflexivity.
Qed.

Lemma header_rewrite_example :
  _process_create_statement (lit "    CREATE TABLE s.t (")
  = Ok (lit "CREATE OR REPLACE TABLE {{EDW_DB_NAME}}.s.t (").
Proof.
  destruct (header_rewrite (lit "    CREATE TABLE s.t (")
              (mkmatch 4 (lit "CREATE TABLE s.t (")
                 [(3, lit " ("); (2, lit "s.t"); (1, lit "CREATE TABLE ")]))
    as (before & prefix & identifier & suffix & after & _ & _ & G1 & G2 & G3
        & _ & _ & _ & _ & _ & _ & H);
    [vm_compute; reflexivity|].
  rewrite H. cbn [group m_caps lookup Nat.eqb] in G1, G2, G3.
  injection G1 as <-. injection G2 as <-. injection G3 as <-.
  vm_compute. reflexivity.
Defined.

(** ** The formatter of [ddl_formatter_combined_5.py] *)

Lemma combined5_table_groups (line : str) (m : mtch) :
  search Combined5.create_table_regex line = Some m ->
  exists prefix identifier suffix,
    group m 1 = Some prefix /\ group m 2 = Some identifier
    /\ group m 3 = Some suffix.
Proof.
  intros H.
  assert (Hb : forall i, In i [1; 2; 3] -> group m i <> None).
  { intros i Hi. apply (search_from_groups _ _ _ _ _ _ H).
    simpl in Hi. simpl. intuition. }
  destruct (group m 1) as [a|] eqn:E1; [|exfalso; apply (Hb 1); simpl; auto].
  destruct (group m 2) as [b|] eqn:E2; [|exfalso; apply (Hb 2); simpl; auto].
  destruct (group m 3) as [d|] eqn:E3; [|exfalso; apply (Hb 3); simpl; auto].
  exists a, b, d. auto.
Qed.

Lemma combined5_view_groups (line : str) (m : mtch) :
  search Combined5.create_view_regex line = Some m ->
  exists prefix identifier suffix,
    group m 1 = Some prefix /\ group m 2 = Some identifier
    /\ group m 3 = Some suffix.
Proof.
  intros H.
  assert (Hb : forall i, In i [1; 2; 3] -> group m i <> None).
  { intros i Hi. apply (search_from_groups _ _ _ _ _ _ H).
    simpl in Hi. simpl. intuition. }
  destruct (group m 1) as [a|] eqn:E1; [|exfalso; apply (Hb 1); simpl; auto].
  destruct (group m 2) as [b|] eqn:E2; [|exfalso; apply (Hb 2); simpl; auto].
  destruct (group m 3) as [d|] eqn:E3; [|exfalso; apply (Hb 3); simpl; auto].
  exists a, b, d. auto.
Qed.

Lemma combined5_table_ok (line : str) :
  exists line', Combined5._process_create_table_line line = Ok line'.
Proof.
  unfold Combined5._process_create_table_line.
  destruct (search Combined5.create_table_regex line) as [m|] eqn:E; [|eauto].
  destruct (combined5_table_groups _ _ E) as (p & i & s & -> & -> & ->).
  cbn [attr bind]. destruct (Combined5.new_identifier i); eauto.
Qed.

Lemma combined5_view_ok (line : str) :
  exists line', Combined5._process_create_view_line line = Ok line'.
Proof.
  unfold Combined5._process_create_view_line.
  destruct (search Combined5.create_view_regex line) as [m|] eqn:E; [|eauto].
  destruct (combined5_view_groups _ _ E) as (p & i & s & -> & -> & ->).
  cbn [attr bind]. destruct (Combined5.new_identifier i); eauto.
Qed.

(** [stripped_line] is the stripped line at every test of the loop body. *)
Lemma combined5_prepare_ok (line0 : str) :
  exists line, Combined5.prepare line0 = Ok (line, strip line).
Proof.
  unfold Combined5.prepare.
  destruct (search Combined5.create_table_regex line0).
  - destruct (combined5_table_ok line0) as [l ->]. cbn [bind]. eauto.
  - destruct (search Combined5.create_view_regex line0); [|eauto].
    destruct (combined5_view_ok line0) as [l ->]. cbn [bind]. eauto.
Qed.

Lemma combined5_restructure_lines (st : state) (line stripped_line : str) :
  1 <= length (snd (Combined5.restructure st line stripped_line)) <= 2.
Proof.
  unfold Combined5.restructure.
  destruct (negb (inside_columns st)
            && endswith (rstrip stripped_line) (lit "(")); [simpl; lia|].
  destruct (inside_columns st && startswith stripped_line (lit ")"));
    [simpl; lia|].
  destruct (inside_columns st && nonempty stripped_line); [|simpl; lia].
  destruct (first_column st); simpl; lia.
Qed.

Lemma combined5_for_lines_ok (lines : list str) :
  forall st,
    exists st' out,
      Combined5.for_lines st lines = Ok (st', out)
      /\ length lines <= length out <= 2 * length lines.
Proof.
  induction lines as [|l ls IH]; intros st.
  - exists st, []. split; [reflexivity|simpl; lia].
  - cbn [Combined5.for_lines]. unfold Combined5.step.
    destruct (combined5_prepare_ok l) as [line ->]. cbn [bind fst snd].
    destruct (IH (fst (Combined5.restructure st line (strip line))))
      as (st' & out & -> & Hlen).
    cbn [bind fst snd]. eexists _, _. split; [reflexivity|].
    pose proof (combined5_restructure_lines st line (strip line)).
    rewrite length_app. simpl. lia.
Qed.

(** The method of the earlier class never raises, whatever flags the object
    holds and whatever the text, and it returns one or two lines for every
    line of the text. *)
Theorem combined5_never_raises (st : state) (ddl : str) :
  exists st' out,
    Combined5.for_lines st (split_on nl ddl) = Ok (st', out)
    /\ Combined5.move_commas_to_start st ddl = Ok (st', join [nl] out)
    /\ length (split_on nl ddl) <= length out <= 2 * length (split_on nl ddl).
Proof.
  destruct (combined5_for_lines_ok (split_on nl ddl) st)
    as (st' & out & H & Hlen).
  exists st', out. split; [exact H|]. split; [|exact Hlen].
  unfold Combined5.move_commas_to_start. rewrite H. reflexivity.
Qed.

(** Outside of a column list the earlier class cuts a line that ends with an
    opening parenthesis in two lines in every case: the text before the
    parenthesis is emitted even when nothing is left of it, so a
    parenthesis that stands alone on its line gets an empty line before
    it. *)
Theorem combined5_opening_line (st : state) (line0 line : str)
  (Hout : inside_columns st = false)
  (Hline : exists s, Combined5.prepare line0 = Ok (line, s))
  (Hend : endswith (strip line) (lit "(") = true) :
  exists body ws,
    line = body ++ lit "(" ++ ws
    /\ forallb isspace ws = true
    /\ Combined5.step st line0
       = Ok (mkstate true true, [rstrip body; leading_ws line ++ lit "("])
    /\ (forallb isspace body = true -> rstrip body = []).
Proof.
  destruct Hline as [s Hp].
  destruct (combined5_prepare_ok line0) as [line' Hp'].
  rewrite Hp' in Hp. injection Hp as -> <-.
  destruct (opening_line_inv line Hend) as (body & ws & Hl & Hws).
  exists body, ws. split; [exact Hl|]. split; [exact Hws|].
  split; [|apply rstrip_spaces].
  unfold Combined5.step. rewrite Hp'. cbn [bind fst snd].
  unfold Combined5.restructure.
  rewrite Hout, rstrip_strip, Hend. cbn [negb andb]. rewrite indent_of_lstrip.
  assert (Hr : rfind line "("%char = Z.of_nat (length body)).
  { rewrite Hl. unfold rfind. rewrite rfind_from_occurrence; [lia|].
    revert Hws. apply forallb_impl. intros x Hx.
    destruct (ascii_eqb x "("%char) eqn:E; [|reflexivity].
    apply ascii_eqb_eq in E. subst x. discriminate. }
  rewrite Hr. unfold slice_to.
  destruct (Z.of_nat (length body) <? 0)%Z eqn:E;
    [apply Z.ltb_lt in E; lia|].
  rewrite Nat2Z.id.
  assert (Hf : firstn (length body) line = body).
  { rewrite Hl, firstn_app, firstn_all, Nat.sub_diag. cbn [firstn].
    apply app_nil_r. }
  rewrite Hf. reflexivity.
Qed.

Lemma combined5_opening_line_example :
  exists body ws,
    lit "  (" = body ++ lit "(" ++ ws
    /\ forallb isspace ws = true
    /\ Combined5.step initial (lit "  (")
       = Ok (mkstate true true, [rstrip body; leading_ws (lit "  (") ++ lit "("])
    /\ (forallb isspace body = true -> rstrip body = []).
Proof.
  apply (combined5_opening_line initial (lit "  (") (lit "  ("));
    [reflexivity
    |exists (lit "("); vm_compute; reflexivity
    |vm_compute; reflexivity].
Defined.

Lemma split_on_app (sep : ascii) (a b : str) :
  split_on sep (a ++ sep :: b) = split_on sep a ++ split_on sep b.
Proof.
  induction a as [|x a IH]; cbn [app split_on].
  - unfold ascii_eqb. rewrite Ascii.eqb_refl. reflexivity.
  - destruct (ascii_eqb x sep); rewrite IH; [reflexivity|].
    destruct (split_on sep a) as [|p ps] eqn:E;
      [exfalso; exact (split_on_nonempty sep a E)|reflexivity].
Qed.

Lemma join_app (sep : str) (l1 l2 : list str) :
  l1 <> [] -> l2 <> [] ->
  join sep (l1 ++ l2) = join sep l1 ++ sep ++ join sep l2.
Proof.
  intros H1 H2. induction l1 as [|p l1 IH]; [congruence|].
  destruct l1 as [|p' l1].
  - destruct l2 as [|q l2]; [congruence|reflexivity].
  - change (join sep ((p :: p' :: l1) ++ l2))
      with (p ++ sep ++ join sep ((p' :: l1) ++ l2)).
    rewrite IH by discriminate.
    change (join sep (p :: p' :: l1)) with (p ++ sep ++ join sep (p' :: l1)).
    rewrite <- !app_assoc. reflexivity.
Qed.

Lemma combined5_for_lines_app (l1 l2 : list str) :
  forall st st1 st2 o1 o2,
    Combined5.for_lines st l1 = Ok (st1, o1) ->
    Combined5.for_lines st1 l2 = Ok (st2, o2) ->
    Combined5.for_lines st (l1 ++ l2) = Ok (st2, o1 ++ o2).
Proof.
  induction l1 as [|l l1 IH]; intros st st1 st2 o1 o2 H1 H2.
  - injection H1 as <- <-. exact H2.
  - cbn [app Combined5.for_lines] in *.
    destruct (Combined5.step st l) as [[s o]|e]; [|discriminate].
    cbn [bind fst snd] in *.
    destruct (Combined5.for_lines s l1) as [[s' o']|e] eqn:E; [|discriminate].
    cbn [bind fst snd] in H1. injection H1 as <- <-.
    rewrite (IH _ _ _ _ _ E H2). cbn [bind fst snd].
    rewrite app_assoc. reflexivity.
Qed.

Lemma combined5_method_inv (st st' : state) (ddl o : str) :
  Combined5.move_commas_to_start st ddl = Ok (st', o) ->
  exists out,
    Combined5.for_lines st (split_on nl ddl) = Ok (st', out)
    /\ o = join [nl] out /\ out <> [].
Proof.
  unfold Combined5.move_commas_to_start. intros H.
  destruct (combined5_for_lines_ok (split_on nl ddl) st)
    as (s & out & E & Hlen).
  rewrite E in H. cbn [bind fst snd] in H. injection H as <- <-.
  exists out. split; [exact E|]. split; [reflexivity|].
  intros ->. pose proof (split_on_nonempty nl ddl).
  destruct (split_on nl ddl); [congruence|simpl in Hlen; lia].
Qed.

(** An object of the earlier class carries its two flags from one call of
    the method to the next: calling it on one text and then on a second
    text gives the two halves of what one call gives on the two texts with
    a line break between them, and leaves the same flags. *)
Theorem combined5_calls_compose (st st1 st2 : state) (t1 t2 o1 o2 : str)
  (Hfirst : Combined5.move_commas_to_start st t1 = Ok (st1, o1))
  (Hsecond : Combined5.move_commas_to_start st1 t2 = Ok (st2, o2)) :
  Combined5.move_commas_to_start st (t1 ++ [nl] ++ t2)
  = Ok (st2, o1 ++ [nl] ++ o2).
Proof.
  destruct (combined5_method_inv _ _ _ _ Hfirst) as (out1 & E1 & -> & N1).
  destruct (combined5_method_inv _ _ _ _ Hsecond) as (out2 & E2 & -> & N2).
  unfold Combined5.move_commas_to_start.
  change (t1 ++ [nl] ++ t2) with (t1 ++ nl :: t2).
  rewrite split_on_app, (combined5_for_lines_app _ _ _ _ _ _ _ E1 E2).
  cbn [bind fst snd]. rewrite (join_app _ _ _ N1 N2). reflexivity.
Qed.

Lemma combined5_calls_compose_example :
  Combined5.move_commas_to_start initial
    (text ["t ("; "  a INT,"]%string ++ [nl] ++ text ["  b INT"; ")"]%string)
  = Ok (mkstate false false,
        text ["t"; "("; "  a INT"]%string ++ [nl]
        ++ text ["  ,b INT"; ")"]%string).
Proof.
  apply (combined5_calls_compose initial (mkstate true false)
           (mkstate false false));
    vm_compute; reflexivity.
Defined.

(** The function of the module makes a new object for each call, so the
    flags never pass from one text to the next: a text cut in two at a
    line break inside a column list is not formatted as the whole text
    is. *)
Example combined5_fresh_object_forgets :
  exists t1 t2 o1 o2 o,
    Combined5.move_commas_to_start_fresh t1 = Ok o1
    /\ Combined5.move_commas_to_start_fresh t2 = Ok o2
    /\ Combined5.move_commas_to_start_fresh (t1 ++ [nl] ++ t2) = Ok o
    /\ o <> o1 ++ [nl] ++ o2.
Proof.
  exists (text ["t ("; "  a INT,"]%string), (text ["  b INT"; ")"]%string),
         (text ["t"; "("; "  a INT"]%string), (text ["  b INT"; ")"]%string),
         (text ["t"; "("; "  a INT"; "  ,b INT"; ")"]%string).
  repeat split; try (vm_compute; reflexivity).
  vm_compute. discriminate.
Qed.

(** The two classes rewrite an identifier alike: the earlier one tests
    for three parts first and for one or two parts second, the later one
    the other way round, and both give the same identifier, or both leave
    the line alone. *)
Theorem identifier_rewrite_agrees (identifier : str) :
  Combined5.new_identifier identifier = new_identifier identifier.
Proof.
  unfold Combined5.new_identifier, new_identifier.
  destruct (length (split_on "."%char identifier)) as [|[|[|[|n]]]];
    reflexivity.
Qed.
